(** * Verification of the Polymarket stop-loss bot (bot/position.py,
    bot/trading.py, bot/monitor.py, bot/config.py, bot/database.py,
    bot/notifications.py).

    Python floats are modelled as exact rationals [Q]; the JSON position
    records returned by the data API are modelled after the [float(...)]
    and [.get(key, default)] conversions that [run_monitor] applies. *)

From Stdlib Require Import QArith Qround ZArith NArith List String Ascii Bool Lia.
From Equations Require Import Equations.
Import ListNotations.
Open Scope Q_scope.
Open Scope string_scope.
Open Scope list_scope.

(* ------------------------------------------------------------------ *)
(** ** bot/position.py *)

(** [calculate_stop_loss_trigger entry_price current_price stop_loss_pct]. *)
Definition calculate_stop_loss_trigger (entry_price current_price stop_loss_pct : Q)
  : bool * Q :=
  if Qle_bool entry_price 0 then (false, 0)
  else
    let price_drop_pct := ((entry_price - current_price) / entry_price) * 100 in
    let should_trigger := Qle_bool stop_loss_pct price_drop_pct in
    (should_trigger, price_drop_pct).

(** A position record of the data API, after the conversions done in
    [run_monitor]: [asset] is [pos.get("asset", "")], [avgPrice] is
    [float(pos.get("avgPrice", 0))], and so on. *)
Record Position := mkPosition {
  asset : string;
  avgPrice : Q;
  curPrice : Q;
  size : Q;
  title : string;
  outcome : string
}.

(* ------------------------------------------------------------------ *)
(** ** Python strings: [in], [str.lower] *)

Fixpoint startswith (p s : string) : bool :=
  match p, s with
  | EmptyString, _ => true
  | String a p', String b s' => Ascii.eqb a b && startswith p' s'
  | String _ _, EmptyString => false
  end.

(** [sub in s]. *)
Fixpoint contains (sub s : string) : bool :=
  startswith sub s ||
  match s with
  | EmptyString => false
  | String _ s' => contains sub s'
  end.

Definition lower_ascii (c : ascii) : ascii :=
  let n := nat_of_ascii c in
  if (65 <=? n)%nat && (n <=? 90)%nat then ascii_of_nat (n + 32) else c.

(** [s.lower()] on ASCII text. *)
Fixpoint lower (s : string) : string :=
  match s with
  | EmptyString => EmptyString
  | String c s' => String (lower_ascii c) (lower s')
  end.

(* ------------------------------------------------------------------ *)
(** ** bot/trading.py *)

(** [x < y] on rationals, as a boolean. *)
Definition Qlt_bool (x y : Q) : bool := negb (Qle_bool y x).

(** Python's [round(x, 2)]: round half to even on the second decimal. *)
Definition round_half_even (x : Q) : Z :=
  let f := Qfloor x in
  let frac := x - inject_Z f in
  if Qlt_bool frac (1 # 2) then f
  else if Qlt_bool (1 # 2) frac then (f + 1)%Z
  else if Z.even f then f else (f + 1)%Z.

Definition round2 (x : Q) : Q := inject_Z (round_half_even (x * 100)) / 100.

(** Exceptions, by the handler of [run_monitor] that catches them:
    [Timeout] is caught first, then any other [RequestException], then
    [Exception].  The string is [str(e)]. *)
Inductive PyExn :=
| Timeout (msg : string)
| RequestException (msg : string)
| OtherException (msg : string).

Definition exn_msg (e : PyExn) : string :=
  match e with Timeout m | RequestException m | OtherException m => m end.

(** Truthiness of a [str | None] value. *)
Definition py_truthy (o : option string) : bool :=
  match o with Some s => negb (String.eqb s "") | None => false end.

(** A Python result: a value or a raised exception. *)
Inductive PyRes (A : Type) :=
| Ok (a : A)
| Err (e : PyExn).
Arguments Ok {A} a.
Arguments Err {A} e.

(** [get_env(key, required)], over the process environment [env]. *)
Definition get_env (env : string -> option string) (key : string) (required : bool)
  : PyRes (option string) :=
  let value := env key in
  if required && negb (py_truthy value) then
    Err (OtherException
           (String.append "Required environment variable "
              (String.append key " is not set")))
  else Ok value.

(** The dictionary returned by [close_position]; [None] stands for a
    missing key (or a JSON null).  Only the keys read by [run_monitor]. *)
Record Response := mkResponse {
  r_success : option bool;
  r_orderID : option string;
  r_order_id : option string;
  r_error : option string
}.

Definition failure (msg : string) : Response :=
  mkResponse (Some false) None None (Some msg).

(** Outcome of a Python call: a returned value or a raised exception. *)
Inductive PyOutcome :=
| Returned (r : Response)
| Raised (e : PyExn).

(** Network traffic of [close_position]: [get_clob_client(force_new=True)]
    derives API credentials from the CLOB server
    ([create_or_derive_api_creds]); [create_market_order] + [post_order]
    submit the order. *)
Inductive NetCall :=
| DeriveCreds (signature_type : Z)
| SubmitOrder (signature_type : Z) (token_id : string) (amount : Q).

(** The venue, as seen by one order submission: given the signature types
    already tried in this call, the signature type of this attempt, the
    token and the rounded amount, either a response or an exception. *)
Definition Venue := list Z -> Z -> string -> Q -> PyOutcome.

(** The signature-type fallback of the [except] branch:
    1 (POLY_PROXY) -> 0 (EOA) -> 2 (POLY_GNOSIS_SAFE) -> give up. *)
Definition sig_fallback (signature_type : Z) : option Z :=
  if Z.eqb signature_type 1 then Some 0%Z
  else if Z.eqb signature_type 0 then Some 2%Z
  else None.

Definition sig_rank (signature_type : Z) : nat :=
  if Z.eqb signature_type 1 then 2%nat
  else if Z.eqb signature_type 0 then 1%nat
  else 0%nat.

Lemma sig_fallback_rank s s' : sig_fallback s = Some s' -> (sig_rank s' < sig_rank s)%nat.
Proof.
  unfold sig_fallback, sig_rank.
  destruct (Z.eqb_spec s 1); [intros [= <-]; simpl; lia |].
  destruct (Z.eqb_spec s 0); [intros [= <-]; simpl; lia | discriminate].
Qed.

Definition is_no_orderbook (m : string) : bool :=
  contains "No orderbook exists" m || contains "404" m.
Definition is_invalid_signature (m : string) : bool :=
  contains "invalid signature" (lower m).
Definition is_auth_error (m : string) : bool :=
  contains "401" m || contains "Unauthorized" m || contains "Invalid api key" m.

(** What [get_clob_client] depends on besides its arguments: the process
    environment read by [get_env]; the [ClobClient] constructor, called with
    the key without its [0x] prefix, the signature type and the funder,
    which raises on a malformed key or address; and the request
    [client.create_or_derive_api_creds()], made on behalf of a call that has
    already tried the signature types [hist], which raises on a network or
    server error. *)
Record ClientSetup := mkClientSetup {
  cs_env : string -> option string;
  cs_new_client : string -> Z -> option string -> option PyExn;
  cs_derive : list Z -> Z -> option PyExn
}.

(** [get_clob_client(force_new=True, signature_type)], as [close_position]
    calls it (the cached client is not used): the exception it raises, if
    any, and its network traffic. *)
Definition get_clob_client (cs : ClientSetup) (hist : list Z) (signature_type : Z)
  : option PyExn * list NetCall :=
  match get_env (cs_env cs) "POLYMARKET_WALLET_PRIVATE_KEY" true with
  | Err e => (Some e, [])
  | Ok private_key =>
    match get_env (cs_env cs) "POLYMARKET_FUNDER_ADDRESS" true with
    | Err e => (Some e, [])
    | Ok funder =>
      match private_key with
      | None => (Some (OtherException "'NoneType' object has no attribute 'startswith'"), [])
      | Some pk =>
        let private_key_clean :=
          if startswith "0x" pk then substring 2 (String.length pk - 2) pk else pk in
        match cs_new_client cs private_key_clean signature_type funder with
        | Some e => (Some e, [])
        | None => (cs_derive cs hist signature_type, [DeriveCreds signature_type])
        end
      end
    end
  end.

(** [close_position(token_id, size, signature_type)].  [hist] lists the
    signature types tried by the enclosing recursive calls.  The client is
    created before the size check and outside the [try], so its exceptions
    propagate. *)
Equations? close_position (cs : ClientSetup) (venue : Venue) (hist : list Z)
  (token_id : string) (size : Q) (signature_type : Z) : PyOutcome * list NetCall
  by wf (sig_rank signature_type) lt :=
close_position cs venue hist token_id size signature_type
  with Equations.Prop.Logic.inspect (sig_fallback signature_type) := {
  | exist _ next Hnext =>
    match get_clob_client cs hist signature_type with
    | (Some e, client) => (Raised e, client)
    | (None, client) =>
      let rounded_size := round2 size in
      if Qle_bool rounded_size 0 then
        (Returned (failure "Size too small"), client)
      else
        let submit := SubmitOrder signature_type token_id rounded_size in
        match venue hist signature_type token_id rounded_size with
        | Returned response => (Returned response, client ++ [submit])
        | Raised e =>
          let error_msg := exn_msg e in
          if is_no_orderbook error_msg then
            (Returned (failure "No active orderbook for this market"), client ++ [submit])
          else if is_invalid_signature error_msg then
            match next as o return next = o -> _ with
            | Some s' => fun H =>
              let '(res, calls) :=
                close_position cs venue (hist ++ [signature_type]) token_id size s' in
              (res, client ++ submit :: calls)
            | None => fun _ =>
              (Returned (failure (String.append "Signature failed: " error_msg)),
               client ++ [submit])
            end eq_refl
          else if is_auth_error error_msg then
            (Returned (failure (String.append "Authentication failed: " error_msg)),
             client ++ [submit])
          else (Raised e, client ++ [submit])
        end
    end }.
Proof. subst. apply sig_fallback_rank. assumption. Qed.

(** The default entry point: [close_position(token_id, size)] uses
    [signature_type=2]. *)
Definition close_position_default (cs : ClientSetup) (venue : Venue) (token_id : string)
  (size : Q) :=
  close_position cs venue [] token_id size 2.

Definition submitted_sigs (calls : list NetCall) : list Z :=
  flat_map (fun c => match c with SubmitOrder s _ _ => [s] | _ => [] end) calls.

(* ------------------------------------------------------------------ *)
(** ** bot/monitor.py: one iteration of the [while True] loop of
    [run_monitor] *)

(** The [tracked_position] dictionary built on every valid-position cycle. *)
Record Tracked := mkTracked {
  tr_title : string;
  tr_outcome : string;
  tr_entry_price : Q;
  tr_last_price : Q;
  tr_size : Q;
  tr_token_id : string
}.

(** The loop's local variables; [tracked_position = {}] is [None]. *)
Record LoopState := mkLoop {
  consecutive_errors : nat;
  current_position_id : option string;
  tracked_position : option Tracked
}.

Definition initial_state : LoopState := mkLoop 0 None None.

(** Observable effects of a cycle: notifications, calls of the executor,
    ledger writes and sleeps (log lines are left out). *)
Inductive Effect :=
| NotifyPositionClosed (t : Tracked) (reason : option string)
| NotifyNewPosition (title outcome : string) (entry_price size stop_loss_pct : Q)
| CallClosePosition (token_id : string) (size : Q)
| LogTrade (status : string) (order_id : option string)
| NotifyStopLoss (order_id : option string) (success : bool)
| NotifyError (msg : string)
| SleepPoll
| SleepBackoff (seconds : nat).

(** The result of [get_positions()]: the list, or the exception raised by
    [requests] (timeouts, connection and HTTP errors) or by the decoding. *)
Inductive Fetch :=
| Fetched (positions : list Position)
| FetchRaised (e : PyExn).

Definition MAX_RETRIES : nat := 3.
Definition RETRY_DELAY : nat := 5.


(** [result.get("orderID") or result.get("order_id")]. *)
Definition order_id_of (r : Response) : option string :=
  if py_truthy (r_orderID r) then r_orderID r else r_order_id r.

(** [success = False if result.get("success") is False else order_id is not None]. *)
Definition reported_success (r : Response) : bool :=
  match r_success r with
  | Some false => false
  | _ => match order_id_of r with Some _ => true | None => false end
  end.

Definition status_of (success : bool) : string :=
  if success then "SUCCESS" else "FAILED".

(** [result.get("error", "Unknown error")]. *)
Definition error_of (r : Response) : string :=
  match r_error r with Some m => m | None => "Unknown error" end.

(** The loop over [positions] that picks [active_pos]. *)
Fixpoint first_active (positions : list Position) : option Position :=
  match positions with
  | [] => None
  | pos :: rest =>
    if Qlt_bool 0 (curPrice pos) && Qlt_bool 0 (avgPrice pos) then Some pos
    else first_active rest
  end.

Section Monitor.

(** [config["stop_loss"]["percentage"]]. *)
Variable stop_loss_pct : Q.
(** [close_position(token_id, size)] as called by the loop. *)
Variable executor : string -> Q -> PyOutcome.

(** The [except] clauses of the loop body. *)
Definition handle_exn (st : LoopState) (effs : list Effect) (e : PyExn)
  : LoopState * list Effect :=
  match e with
  | Timeout _ =>
    let n := S (consecutive_errors st) in
    (mkLoop n (current_position_id st) (tracked_position st),
     effs ++ [SleepBackoff (Nat.min (RETRY_DELAY * n) 60)])
  | RequestException m =>
    let n := S (consecutive_errors st) in
    (mkLoop n (current_position_id st) (tracked_position st),
     effs ++ (if (MAX_RETRIES <=? n)%nat then [NotifyError (String.append "Network issues: " m)] else [])
          ++ [SleepBackoff (Nat.min (RETRY_DELAY * n) 60)])
  | OtherException m => (st, effs ++ [NotifyError m; SleepPoll])
  end.

(** The position-closed notification, [if tracked_position:]. *)
Definition closed_notification (tp : option Tracked) (reason : option string)
  : list Effect :=
  match tp with Some t => [NotifyPositionClosed t reason] | None => [] end.

(** [if not positions:] *)
Definition on_no_positions (st : LoopState) : LoopState * list Effect :=
  match current_position_id st with
  | Some _ =>
    (mkLoop 0 None None,
     closed_notification (tracked_position st) None ++ [SleepPoll])
  | None => (mkLoop 0 None (tracked_position st), [SleepPoll])
  end.

(** [if active_pos is None:] (the counter is not reset here). *)
Definition on_no_valid (st : LoopState) : LoopState * list Effect :=
  match current_position_id st with
  | Some _ =>
    (mkLoop (consecutive_errors st) None None,
     closed_notification (tracked_position st) (Some "Market Resolved") ++ [SleepPoll])
  | None => (st, [SleepPoll])
  end.

(** The rest of the loop body, for [pos = active_pos]. *)
Definition on_active (st : LoopState) (pos : Position) : LoopState * list Effect :=
  let entry_price := avgPrice pos in
  let current_price := curPrice pos in
  let sz := size pos in
  let token_id := asset pos in
  let tracked := Some (mkTracked (title pos) (outcome pos) entry_price current_price sz token_id) in
  let is_new := negb (match current_position_id st with
                      | Some id => String.eqb token_id id
                      | None => false end) in
  let effs0 := if is_new
               then [NotifyNewPosition (title pos) (outcome pos) entry_price sz stop_loss_pct]
               else [] in
  let id1 := if is_new then Some token_id else current_position_id st in
  let '(should_trigger, price_drop_pct) :=
    calculate_stop_loss_trigger entry_price current_price stop_loss_pct in
  if should_trigger then
    let effs1 := effs0 ++ [CallClosePosition token_id sz] in
    match executor token_id sz with
    | Raised e => handle_exn (mkLoop (consecutive_errors st) id1 tracked) effs1 e
    | Returned result =>
      let order_id := order_id_of result in
      let success := reported_success result in
      let effs2 := effs1 ++ [LogTrade (status_of success) order_id;
                             NotifyStopLoss order_id success]
                         ++ (if success then []
                             else [NotifyError (String.append "Failed to close position: " (error_of result))]) in
      let id2 := if success then None else id1 in
      (mkLoop 0 id2 tracked, effs2 ++ [SleepPoll])
    end
  else (mkLoop 0 id1 tracked, effs0 ++ [SleepPoll]).

(** One iteration of the loop. *)
Definition monitor_cycle (st : LoopState) (f : Fetch) : LoopState * list Effect :=
  match f with
  | FetchRaised e => handle_exn st [] e
  | Fetched positions =>
    match positions with
    | [] => on_no_positions st
    | _ :: _ =>
      match first_active positions with
      | None => on_no_valid st
      | Some pos => on_active st pos
      end
    end
  end.

(** Several iterations, one per fetch result. *)
Fixpoint run (st : LoopState) (fs : list Fetch) : LoopState * list Effect :=
  match fs with
  | [] => (st, [])
  | f :: fs' =>
    let '(st1, e1) := monitor_cycle st f in
    let '(st2, e2) := run st1 fs' in
    (st2, e1 ++ e2)
  end.

End Monitor.

(* ------------------------------------------------------------------ *)
(** ** The position tracker of the specification (section 4.2) *)

Inductive Event :=
| NoPositions
| NoValidPosition
| NewPosition (p : Position)
| SamePosition (p : Position).

Definition valid_position (p : Position) : bool :=
  Qlt_bool 0 (avgPrice p) && Qlt_bool 0 (curPrice p).

(** Classification in the specification's precedence order. *)
Definition spec_classify (snapshot : list Position) (previously_tracked : option string)
  : Event :=
  match snapshot with
  | [] => NoPositions
  | _ =>
    if forallb (fun p => negb (valid_position p)) snapshot then NoValidPosition
    else match find valid_position snapshot with
         | None => NoValidPosition
         | Some p =>
           if match previously_tracked with
              | Some id => String.eqb (asset p) id
              | None => false end
           then SamePosition p else NewPosition p
         end
  end.

(** Counting the calls of the executor and the error notifications. *)
Definition is_close_call (e : Effect) : bool :=
  match e with CallClosePosition _ _ => true | _ => false end.
Definition is_error_notification (e : Effect) : bool :=
  match e with NotifyError _ => true | _ => false end.
Definition is_new_notification (e : Effect) : bool :=
  match e with NotifyNewPosition _ _ _ _ _ => true | _ => false end.
Definition is_closed_notification (e : Effect) : bool :=
  match e with NotifyPositionClosed _ _ => true | _ => false end.
Definition count (f : Effect -> bool) (effs : list Effect) : nat :=
  List.length (filter f effs).

(* ------------------------------------------------------------------ *)
(** ** Helper lemmas *)

Lemma first_active_find ps : first_active ps = find valid_position ps.
Proof.
  induction ps as [| p ps IH]; simpl; [reflexivity |].
  unfold valid_position. rewrite andb_comm.
  destruct (Qlt_bool 0 (avgPrice p) && Qlt_bool 0 (curPrice p)); auto.
Qed.

Lemma forallb_negb_find ps :
  forallb (fun p => negb (valid_position p)) ps = true -> find valid_position ps = None.
Proof.
  induction ps as [| p ps IH]; simpl; [reflexivity |].
  destruct (valid_position p); simpl; [discriminate | exact IH].
Qed.

(** A cycle that fetched a snapshot runs the branch of the code that the
    specification's classification names. *)
Lemma monitor_cycle_dispatch pct ex st ps :
  monitor_cycle pct ex st (Fetched ps) =
  match spec_classify ps (current_position_id st) with
  | NoPositions => on_no_positions st
  | NoValidPosition => on_no_valid st
  | NewPosition p | SamePosition p => on_active pct ex st p
  end.
Proof.
  unfold monitor_cycle, spec_classify.
  destruct ps as [| p0 ps0] eqn:Hps; [reflexivity |].
  rewrite <- Hps, first_active_find.
  destruct (forallb _ ps) eqn:Hall.
  - rewrite (forallb_negb_find _ Hall). reflexivity.
  - destruct (find valid_position ps); [| reflexivity].
    destruct (match current_position_id st with Some id => _ | None => false end);
      reflexivity.
Qed.

Ltac split_matches :=
  repeat match goal with
         | |- context [match ?x with _ => _ end] => destruct x eqn:?
         end.

(** The new-position notification is emitted by [on_active] exactly when
    the asset differs from the tracked id. *)
Lemma on_active_new_count pct ex st p :
  count is_new_notification (snd (on_active pct ex st p)) =
  match current_position_id st with
  | Some id => if String.eqb (asset p) id then 0%nat else 1%nat
  | None => 1%nat
  end.
Proof.
  unfold on_active, handle_exn, count.
  destruct (current_position_id st) as [id |]; [destruct (String.eqb (asset p) id) |];
    simpl; split_matches; simpl;
    repeat (rewrite filter_app || rewrite length_app); simpl; try lia.
Qed.

(* ------------------------------------------------------------------ *)
(** ** Claims *)

(** C2: for [entry_price <= 0] the trigger calculator returns
    [(false, 0.0)]; for [entry_price > 0] it returns
    [drop_pct = (entry_price - current_price) / entry_price * 100] and
    [trigger = (drop_pct >= threshold_pct)]; the drop is negative when the
    position is in profit, and [drop_pct = threshold_pct] triggers. *)
Theorem C2_stop_loss_trigger :
  (forall e c t, e <= 0 -> calculate_stop_loss_trigger e c t = (false, 0)) /\
  (forall e c t, 0 < e ->
     calculate_stop_loss_trigger e c t =
     (Qle_bool t (((e - c) / e) * 100), ((e - c) / e) * 100)) /\
  (forall e c t, 0 < e -> e < c -> snd (calculate_stop_loss_trigger e c t) < 0) /\
  (forall e c t, 0 < e -> snd (calculate_stop_loss_trigger e c t) == t ->
     fst (calculate_stop_loss_trigger e c t) = true).
Proof.
  assert (Hpos : forall e, 0 < e -> Qle_bool e 0 = false).
  { intros e He. destruct (Qle_bool e 0) eqn:E; [| reflexivity].
    apply Qle_bool_iff in E. exfalso. apply (Qlt_not_le _ _ He E). }
  split; [| split; [| split]].
  - intros e c t He. unfold calculate_stop_loss_trigger.
    apply Qle_bool_iff in He. rewrite He. reflexivity.
  - intros e c t He. unfold calculate_stop_loss_trigger. rewrite (Hpos e He). reflexivity.
  - intros e c t He Hc. unfold calculate_stop_loss_trigger. rewrite (Hpos e He). simpl.
    assert (H1 : e - c < 0).
    { apply (Qplus_lt_l _ _ c). ring_simplify. exact Hc. }
    assert (H2 : (e - c) / e < 0).
    { unfold Qdiv. setoid_replace 0 with (0 * / e) by ring.
      apply Qmult_lt_compat_r; [apply Qinv_lt_0_compat; exact He | exact H1]. }
    setoid_replace 0 with (0 * 100) by ring.
    apply Qmult_lt_compat_r; [reflexivity | exact H2].
  - intros e c t He Heq. unfold calculate_stop_loss_trigger in *.
    rewrite (Hpos e He) in *. simpl in *.
    apply Qle_bool_iff. rewrite Heq. apply Qle_refl.
Qed.

Lemma C2_stop_loss_trigger_witness :
  calculate_stop_loss_trigger 0 (1 # 2) 10 = (false, 0) /\
  calculate_stop_loss_trigger (65 # 100) (55 # 100) 10 =
    (Qle_bool 10 ((((65 # 100) - (55 # 100)) / (65 # 100)) * 100),
     (((65 # 100) - (55 # 100)) / (65 # 100)) * 100) /\
  snd (calculate_stop_loss_trigger (1 # 2) (3 # 4) 10) < 0 /\
  fst (calculate_stop_loss_trigger (1 # 2) (9 # 20) 10) = true.
Proof.
  destruct C2_stop_loss_trigger as (Ha & Hb & Hc & Hd).
  split; [apply Ha; vm_compute; discriminate |].
  split; [apply Hb; reflexivity |].
  split; [apply Hc; reflexivity |].
  apply Hd; reflexivity.
Defined.

(** C3: the tracker classifies an empty snapshot as [NoPositions], a
    non-empty snapshot without a valid entry as [NoValidPosition], and
    otherwise the first valid entry as [NewPosition] when its asset differs
    from the tracked one (the new-position notification is sent) and as
    [SamePosition] when it matches (no such notification); the loop runs
    the corresponding branch of [run_monitor]. *)
Theorem C3_tracker_classification pct ex st ps :
  let '(st', effs) := monitor_cycle pct ex st (Fetched ps) in
  match spec_classify ps (current_position_id st) with
  | NoPositions => (st', effs) = on_no_positions st
  | NoValidPosition => (st', effs) = on_no_valid st
  | NewPosition p =>
    (st', effs) = on_active pct ex st p /\ count is_new_notification effs = 1%nat
  | SamePosition p =>
    (st', effs) = on_active pct ex st p /\ count is_new_notification effs = 0%nat
  end.
Proof.
  pose proof (monitor_cycle_dispatch pct ex st ps) as Hd.
  destruct (monitor_cycle pct ex st (Fetched ps)) as [st' effs] eqn:Hc.
  destruct (spec_classify ps (current_position_id st)) eqn:Hcl; try exact Hd;
    split; try exact Hd;
    pose proof (on_active_new_count pct ex st p) as Hn; rewrite <- Hd in Hn; simpl in Hn;
    rewrite Hn; clear Hn Hd Hc;
    unfold spec_classify in Hcl; destruct ps; try discriminate;
    destruct (forallb _ _); try discriminate;
    destruct (find _ _) as [q |]; try discriminate;
    destruct (current_position_id st) as [id |];
    try (destruct (String.eqb (asset q) id) eqn:E);
    try discriminate; injection Hcl as <-; try rewrite E; reflexivity.
Qed.

Lemma close_position_eqn cs venue hist token_id sz signature_type :
  close_position cs venue hist token_id sz signature_type =
  match get_clob_client cs hist signature_type with
  | (Some e, client) => (Raised e, client)
  | (None, client) =>
    let rounded_size := round2 sz in
    if Qle_bool rounded_size 0 then
      (Returned (failure "Size too small"), client)
    else
      let submit := SubmitOrder signature_type token_id rounded_size in
      match venue hist signature_type token_id rounded_size with
      | Returned response => (Returned response, client ++ [submit])
      | Raised e =>
        let error_msg := exn_msg e in
        if is_no_orderbook error_msg then
          (Returned (failure "No active orderbook for this market"), client ++ [submit])
        else if is_invalid_signature error_msg then
          match sig_fallback signature_type with
          | Some s' =>
            let '(res, calls) :=
              close_position cs venue (hist ++ [signature_type]) token_id sz s' in
            (res, client ++ submit :: calls)
          | None =>
            (Returned (failure (String.append "Signature failed: " error_msg)),
             client ++ [submit])
          end
        else if is_auth_error error_msg then
          (Returned (failure (String.append "Authentication failed: " error_msg)),
           client ++ [submit])
        else (Raised e, client ++ [submit])
      end
  end.
Proof.
  simp close_position. unfold close_position_unfold_clause_1. cbn [Logic.inspect].
  destruct (get_clob_client cs hist signature_type) as [[e |] client]; [reflexivity |].
  cbv zeta. destruct (Qle_bool (round2 sz) 0); [reflexivity |].
  destruct (venue hist signature_type token_id (round2 sz)); [reflexivity |].
  destruct (is_no_orderbook _); [reflexivity |].
  destruct (is_invalid_signature _); [| reflexivity].
  destruct (sig_fallback signature_type); reflexivity.
Qed.

(** [get_clob_client] makes at most the one credential request, and it
    raises whenever it makes none. *)
Lemma get_clob_client_cases cs hist s :
  match get_clob_client cs hist s with
  | (None, client) => client = [DeriveCreds s]
  | (Some e, client) => client = [] \/ (client = [DeriveCreds s] /\ cs_derive cs hist s = Some e)
  end.
Proof.
  unfold get_clob_client.
  destruct (get_env (cs_env cs) "POLYMARKET_WALLET_PRIVATE_KEY" true) as [[pk |] | e];
    [| | left; reflexivity];
  (destruct (get_env (cs_env cs) "POLYMARKET_FUNDER_ADDRESS" true) as [funder | e];
    [| left; reflexivity]); [| left; reflexivity].
  destruct (cs_new_client cs _ s funder); [left; reflexivity |].
  destruct (cs_derive cs hist s); [right; split; reflexivity | reflexivity].
Qed.

Lemma submitted_sigs_app l1 l2 :
  submitted_sigs (l1 ++ l2) = submitted_sigs l1 ++ submitted_sigs l2.
Proof. unfold submitted_sigs. apply flat_map_app. Qed.

Lemma get_clob_client_no_submit cs hist s :
  submitted_sigs (snd (get_clob_client cs hist s)) = [].
Proof.
  pose proof (get_clob_client_cases cs hist s) as H.
  destruct (get_clob_client cs hist s) as [[e |] client]; cbn [snd].
  - destruct H as [-> | [-> _]]; reflexivity.
  - subst client. reflexivity.
Qed.

(** The signature types tried, in order, when every attempt is rejected
    for its signature. *)
Definition escalation_chain (signature_type : Z) : list Z :=
  if Z.eqb signature_type 1 then [1; 0; 2]%Z
  else if Z.eqb signature_type 0 then [0; 2]%Z
  else [signature_type].

Lemma escalation_chain_fallback s s' :
  sig_fallback s = Some s' -> escalation_chain s = s :: escalation_chain s'.
Proof.
  unfold sig_fallback, escalation_chain.
  destruct (Z.eqb_spec s 1); [intros [= <-]; subst; reflexivity |].
  destruct (Z.eqb_spec s 0); [intros [= <-]; subst; reflexivity | discriminate].
Qed.

Lemma escalation_chain_None s : sig_fallback s = None -> escalation_chain s = [s].
Proof.
  unfold sig_fallback, escalation_chain.
  destruct (Z.eqb s 1); [discriminate |]. destruct (Z.eqb s 0); [discriminate | reflexivity].
Qed.

Lemma escalation_chain_props s :
  NoDup (escalation_chain s) /\ (List.length (escalation_chain s) <= 3)%nat.
Proof.
  unfold escalation_chain.
  destruct (Z.eqb s 1); [| destruct (Z.eqb s 0)]; split; simpl; try lia;
    repeat constructor; simpl; intuition discriminate.
Qed.

(** Every call submits along a prefix of the escalation chain of its
    starting signature type. *)
Lemma close_position_prefix cs venue hist token_id sz signature_type :
  exists rest, escalation_chain signature_type =
    submitted_sigs (snd (close_position cs venue hist token_id sz signature_type)) ++ rest.
Proof.
  remember (sig_rank signature_type) as n eqn:Hn.
  revert hist signature_type Hn.
  induction n as [n IH] using lt_wf_ind.
  intros hist signature_type Hn.
  rewrite close_position_eqn.
  pose proof (get_clob_client_no_submit cs hist signature_type) as Hc.
  destruct (get_clob_client cs hist signature_type) as [[e |] client]; cbn [snd] in Hc |- *.
  { rewrite Hc. exists (escalation_chain signature_type). reflexivity. }
  cbv zeta.
  destruct (Qle_bool (round2 sz) 0).
  { cbn [snd]. rewrite Hc. exists (escalation_chain signature_type). reflexivity. }
  assert (Hone : exists rest, escalation_chain signature_type = [signature_type] ++ rest).
  { unfold escalation_chain.
    destruct (Z.eqb_spec signature_type 1); [subst; eexists; reflexivity |].
    destruct (Z.eqb_spec signature_type 0); [subst; eexists; reflexivity |].
    exists []. reflexivity. }
  assert (Hsub : submitted_sigs (client ++ [SubmitOrder signature_type token_id (round2 sz)]) =
                 [signature_type]).
  { rewrite submitted_sigs_app, Hc. reflexivity. }
  destruct (venue hist signature_type token_id (round2 sz)) as [r | e];
    [cbn [snd]; rewrite Hsub; exact Hone |].
  destruct (is_no_orderbook (exn_msg e)); [cbn [snd]; rewrite Hsub; exact Hone |].
  destruct (is_invalid_signature (exn_msg e)).
  - destruct (sig_fallback signature_type) as [s' |] eqn:Hf;
      [| cbn [snd]; rewrite Hsub; exact Hone].
    destruct (close_position cs venue (hist ++ [signature_type]) token_id sz s')
      as [res calls] eqn:Hrec.
    destruct (IH (sig_rank s')) with (hist := hist ++ [signature_type])
      (signature_type := s') as [rest Hrest].
    { subst n. apply sig_fallback_rank. exact Hf. }
    { reflexivity. }
    rewrite Hrec in Hrest. exists rest. cbn [snd].
    rewrite submitted_sigs_app, Hc.
    rewrite (escalation_chain_fallback _ _ Hf), Hrest. reflexivity.
  - destruct (is_auth_error (exn_msg e)); cbn [snd]; rewrite Hsub; exact Hone.
Qed.

(** C1 (a slip of the code): the signature fallback written in
    [close_position] runs POLY_PROXY (1) -> EOA (0) -> POLY_GNOSIS_SAFE (2)
    and ends at type 2, the default of the only caller.  Every call
    submits along a prefix of that chain (at most 3 attempts, no signature
    type twice); but a call from the default entry point whose attempt is
    rejected for its signature gives up after that one attempt ("All
    signature types failed"), so the retries the branch is written for are
    never reached from [run_monitor]. *)
Theorem C1_signature_escalation :
  (forall cs venue hist token_id sz signature_type,
     let sigs := submitted_sigs (snd (close_position cs venue hist token_id sz signature_type)) in
     (exists rest, escalation_chain signature_type = sigs ++ rest) /\
     NoDup sigs /\ (List.length sigs <= 3)%nat) /\
  (forall cs venue token_id sz e,
     fst (get_clob_client cs [] 2) = None ->
     Qle_bool (round2 sz) 0 = false ->
     venue [] 2%Z token_id (round2 sz) = Raised e ->
     is_no_orderbook (exn_msg e) = false ->
     is_invalid_signature (exn_msg e) = true ->
     close_position_default cs venue token_id sz =
     (Returned (failure (String.append "Signature failed: " (exn_msg e))),
      [DeriveCreds 2; SubmitOrder 2 token_id (round2 sz)])).
Proof.
  split.
  - intros cs venue hist token_id sz signature_type sigs.
    destruct (close_position_prefix cs venue hist token_id sz signature_type) as [rest Hrest].
    destruct (escalation_chain_props signature_type) as [Hnd Hlen].
    fold sigs in Hrest. rewrite Hrest in Hnd, Hlen.
    split; [exists rest; exact Hrest |]. split.
    + exact (NoDup_app_remove_r _ _ Hnd).
    + rewrite length_app in Hlen. lia.
  - intros cs venue token_id sz e Hc Hsz Hv Hnob Hsig.
    unfold close_position_default. rewrite close_position_eqn.
    pose proof (get_clob_client_cases cs [] 2) as Hcases.
    destruct (get_clob_client cs [] 2) as [[e' |] client]; [discriminate |].
    subst client. cbv zeta.
    rewrite Hsz, Hv, Hnob, Hsig. reflexivity.
Qed.

(** The venue rejecting every order for its signature, with the message
    format of the CLOB client's API exception. *)
Definition signature_rejecting_venue : Venue :=
  fun _ _ _ _ =>
    Raised (OtherException
      "PolyApiException[status_code=400, error_message={'error': 'invalid signature'}]").

(** A configured environment whose client construction and credential
    requests succeed. *)
Definition configured_env (k : string) : option string :=
  if String.eqb k "POLYMARKET_WALLET_PRIVATE_KEY" then Some "0x4c0883a69102937d6231471b5dbb6204fe512961708279f3e27e8b9a5c1f7c2b"
  else if String.eqb k "POLYMARKET_FUNDER_ADDRESS" then Some "0x8f3Cf7ad23Cd3CaDbD9735AFf958023239c6A063"
  else None.

Definition configured_setup : ClientSetup :=
  mkClientSetup configured_env (fun _ _ _ => None) (fun _ _ => None).

(** An environment where neither variable is set. *)
Definition unconfigured_setup : ClientSetup :=
  mkClientSetup (fun _ => None) (fun _ _ _ => None) (fun _ _ => None).

Lemma C1_signature_escalation_witness :
  (exists rest, escalation_chain 1 =
     submitted_sigs (snd (close_position configured_setup signature_rejecting_venue [] "tok" 10 1))
     ++ rest) /\
  close_position_default configured_setup signature_rejecting_venue "tok" 10 =
    (Returned (failure (String.append "Signature failed: "
       "PolyApiException[status_code=400, error_message={'error': 'invalid signature'}]")),
     [DeriveCreds 2; SubmitOrder 2 "tok" (round2 10)]).
Proof.
  destruct C1_signature_escalation as [Ha Hb]. split.
  - apply (Ha configured_setup signature_rejecting_venue [] "tok" 10 1%Z).
  - apply (Hb configured_setup signature_rejecting_venue "tok" 10
             (OtherException
                "PolyApiException[status_code=400, error_message={'error': 'invalid signature'}]"));
      vm_compute; reflexivity.
Defined.

(** C1, as stated, fails: from the default entry point (Safe-proxy, type 2)
    a venue that rejects every signature sees a single attempt, and no
    retry at Direct-key (EOA, type 0). *)
Lemma C1_counterexample :
  submitted_sigs (snd (close_position_default configured_setup signature_rejecting_venue "tok" 10))
    = [2%Z] /\
  ~ In 0%Z (submitted_sigs
              (snd (close_position_default configured_setup signature_rejecting_venue "tok" 10))).
Proof.
  split; [vm_compute; reflexivity |].
  vm_compute. intros [H | H]; [discriminate | exact H].
Qed.

(** C5 (as amended): when [round(size, 2) <= 0], [close_position]
    submits no order.  It first creates the client, outside the [try]: when
    that raises (a missing key or funder variable, a rejected client
    construction, a failed credential request) the exception propagates;
    otherwise it returns [{"success": False, "error": "Size too small"}]
    after exactly one credential request. *)
Theorem C5_size_too_small cs venue hist token_id sz signature_type :
  Qle_bool (round2 sz) 0 = true ->
  close_position cs venue hist token_id sz signature_type =
  match get_clob_client cs hist signature_type with
  | (Some e, client) => (Raised e, client)
  | (None, client) => (Returned (failure "Size too small"), client)
  end /\
  submitted_sigs (snd (close_position cs venue hist token_id sz signature_type)) = [] /\
  (fst (get_clob_client cs hist signature_type) = None ->
   snd (close_position cs venue hist token_id sz signature_type) = [DeriveCreds signature_type]).
Proof.
  intros Hsz.
  assert (E : close_position cs venue hist token_id sz signature_type =
              match get_clob_client cs hist signature_type with
              | (Some e, client) => (Raised e, client)
              | (None, client) => (Returned (failure "Size too small"), client)
              end).
  { rewrite close_position_eqn.
    destruct (get_clob_client cs hist signature_type) as [[e |] client]; [reflexivity |].
    cbv zeta. rewrite Hsz. reflexivity. }
  rewrite E. split; [reflexivity |].
  pose proof (get_clob_client_no_submit cs hist signature_type) as Hc.
  pose proof (get_clob_client_cases cs hist signature_type) as Hcases.
  destruct (get_clob_client cs hist signature_type) as [[e |] client]; cbn [snd fst] in *.
  - split; [exact Hc | discriminate].
  - split; [exact Hc | intros _; exact Hcases].
Qed.

Lemma C5_size_too_small_witness :
  Qle_bool (round2 (1 # 1000)) 0 = true /\
  close_position configured_setup signature_rejecting_venue [] "tok" (1 # 1000) 2 =
    (Returned (failure "Size too small"), [DeriveCreds 2]) /\
  submitted_sigs (snd (close_position configured_setup signature_rejecting_venue [] "tok" (1 # 1000) 2))
    = [].
Proof.
  assert (H : Qle_bool (round2 (1 # 1000)) 0 = true) by reflexivity.
  destruct (C5_size_too_small configured_setup signature_rejecting_venue [] "tok" (1 # 1000) 2 H)
    as (H1 & H2 & _).
  split; [exact H |]. split; [| exact H2].
  rewrite H1. vm_compute. reflexivity.
Defined.

(** C5, as stated, fails: a size that rounds to 0 still makes the
    credential-derivation request of [get_clob_client] when the client is
    configured, and raises instead of returning [success=False] when the
    key is not set. *)
Lemma C5_counterexample :
  Qle_bool (round2 (1 # 1000)) 0 = true /\
  snd (close_position_default configured_setup signature_rejecting_venue "tok" (1 # 1000))
    = [DeriveCreds 2] /\
  fst (close_position_default unconfigured_setup signature_rejecting_venue "tok" (1 # 1000))
    = Raised (OtherException
                "Required environment variable POLYMARKET_WALLET_PRIVATE_KEY is not set").
Proof.
  split; [reflexivity |]. split; vm_compute; reflexivity.
Qed.

Lemma count_app f l1 l2 : count f (l1 ++ l2) = (count f l1 + count f l2)%nat.
Proof. unfold count. rewrite filter_app, length_app. reflexivity. Qed.

Lemma monitor_cycle_active pct ex st ps p :
  first_active ps = Some p -> monitor_cycle pct ex st (Fetched ps) = on_active pct ex st p.
Proof. intros H. destruct ps; [discriminate |]. simpl in *. rewrite H. reflexivity. Qed.

(** The id tracked after the new/same check of [on_active] is the asset. *)
Lemma id_after_check st p :
  (if negb match current_position_id st with
           | Some id => String.eqb (asset p) id
           | None => false end
   then Some (asset p) else current_position_id st) = Some (asset p).
Proof.
  destruct (current_position_id st) as [id |]; [| reflexivity].
  destruct (String.eqb_spec (asset p) id); [subst; reflexivity | reflexivity].
Qed.

(** [on_active] calls the executor once when the trigger holds, and never
    otherwise. *)
Lemma on_active_close_count pct ex st p :
  count is_close_call (snd (on_active pct ex st p)) =
  if fst (calculate_stop_loss_trigger (avgPrice p) (curPrice p) pct) then 1%nat else 0%nat.
Proof.
  unfold on_active.
  destruct (calculate_stop_loss_trigger (avgPrice p) (curPrice p) pct) as [[|] drop];
    simpl.
  - destruct (ex (asset p) (size p)) as [r | e].
    + simpl. rewrite !count_app.
      destruct (negb _), (reported_success r); reflexivity.
    + unfold handle_exn. destruct e; simpl; rewrite ?count_app; split_matches; reflexivity.
  - rewrite count_app. destruct (negb _); reflexivity.
Qed.

(** C4: after a triggered liquidation attempt the executor has been called
    exactly once in the cycle; the tracked id is cleared exactly when the
    executor reports success, and stays on the position otherwise (also
    when the executor raises). *)
Theorem C4_liquidation_transition pct ex st ps p :
  first_active ps = Some p ->
  fst (calculate_stop_loss_trigger (avgPrice p) (curPrice p) pct) = true ->
  let '(st', effs) := monitor_cycle pct ex st (Fetched ps) in
  count is_close_call effs = 1%nat /\
  (forall r, ex (asset p) (size p) = Returned r ->
     (current_position_id st' = None <-> reported_success r = true) /\
     (reported_success r = false -> current_position_id st' = Some (asset p))) /\
  (forall e, ex (asset p) (size p) = Raised e -> current_position_id st' = Some (asset p)).
Proof.
  intros Hp Htrig.
  pose proof (on_active_close_count pct ex st p) as Hcount. rewrite Htrig in Hcount.
  rewrite (monitor_cycle_active pct ex st ps p Hp).
  destruct (on_active pct ex st p) as [st' effs] eqn:Ha.
  split; [exact Hcount |].
  unfold on_active in Ha. rewrite id_after_check in Ha.
  destruct (calculate_stop_loss_trigger (avgPrice p) (curPrice p) pct) as [trig drop].
  simpl in Htrig. subst trig.
  split.
  - intros r Hr. rewrite Hr in Ha. injection Ha as <- _. simpl.
    destruct (reported_success r); simpl; repeat split; intros; try discriminate;
      reflexivity.
  - intros e He. rewrite He in Ha. unfold handle_exn in Ha.
    destruct e; injection Ha as <- _; reflexivity.
Qed.

Definition position_A : Position := mkPosition "A" (65 # 100) (55 # 100) 10 "Market" "Yes".

Definition failing_executor : string -> Q -> PyOutcome :=
  fun _ _ => Returned (failure "No active orderbook for this market").

Lemma C4_liquidation_transition_witness :
  first_active [position_A] = Some position_A /\
  fst (calculate_stop_loss_trigger (avgPrice position_A) (curPrice position_A) 10) = true /\
  (let '(st', effs) := monitor_cycle 10 failing_executor initial_state (Fetched [position_A]) in
   count is_close_call effs = 1%nat /\
   (forall r, failing_executor (asset position_A) (size position_A) = Returned r ->
      (current_position_id st' = None <-> reported_success r = true) /\
      (reported_success r = false -> current_position_id st' = Some (asset position_A))) /\
   (forall e, failing_executor (asset position_A) (size position_A) = Raised e ->
      current_position_id st' = Some (asset position_A))).
Proof.
  split; [reflexivity |]. split; [reflexivity |].
  apply C4_liquidation_transition; reflexivity.
Defined.

(** The response carries an order identifier: a non-empty ["orderID"], or
    an ["order_id"]. *)
Definition has_order_identifier (r : Response) : Prop :=
  (exists s, r_orderID r = Some s /\ s <> "") \/ r_order_id r <> None.

Lemma order_id_of_identifier r : order_id_of r <> None <-> has_order_identifier r.
Proof.
  unfold order_id_of, py_truthy, has_order_identifier.
  destruct (r_orderID r) as [s |].
  - destruct (String.eqb_spec s "") as [Hs | Hs]; simpl.
    + split; [intros H; right; exact H |].
      intros [[s' [E H]] | H]; [injection E as <-; contradiction | exact H].
    + split; [intros _; left; exists s; split; [reflexivity | exact Hs] | discriminate].
  - split; [intros H; right; exact H |].
    intros [[s' [E _]] | H]; [discriminate | exact H].
Qed.

(** C7: the reported outcome is [success=true] exactly when the response
    carries an order identifier and no explicit [success=False]; a response
    with neither an order identifier nor an error is reported as a failure;
    a triggered cycle reports that outcome in its ledger record and its
    stop-loss notification. *)
Theorem C7_reported_success :
  (forall r, reported_success r = true <->
             r_success r <> Some false /\ has_order_identifier r) /\
  (forall r, r_orderID r = None -> r_order_id r = None -> r_error r = None ->
             reported_success r = false) /\
  (forall pct ex st ps p r,
     first_active ps = Some p ->
     fst (calculate_stop_loss_trigger (avgPrice p) (curPrice p) pct) = true ->
     ex (asset p) (size p) = Returned r ->
     In (LogTrade (status_of (reported_success r)) (order_id_of r))
        (snd (monitor_cycle pct ex st (Fetched ps))) /\
     In (NotifyStopLoss (order_id_of r) (reported_success r))
        (snd (monitor_cycle pct ex st (Fetched ps)))).
Proof.
  split; [| split].
  - intros r. rewrite <- order_id_of_identifier. unfold reported_success.
    destruct (r_success r) as [[|] |]; destruct (order_id_of r); simpl;
      (split;
       [ intros H; first [ discriminate | split; discriminate ]
       | intros [H1 H2]; first [ reflexivity | exfalso; apply H1; reflexivity
                                | exfalso; apply H2; reflexivity ] ]).
  - intros [succ oid oid2 err]; simpl; intros -> -> _.
    unfold reported_success, order_id_of; simpl. destruct succ as [[|] |]; reflexivity.
  - intros pct ex st ps p r Hp Htrig Hr.
    rewrite (monitor_cycle_active pct ex st ps p Hp). unfold on_active.
    destruct (calculate_stop_loss_trigger (avgPrice p) (curPrice p) pct) as [trig drop].
    simpl in Htrig. subst trig. rewrite Hr. simpl.
    split; repeat rewrite in_app_iff; simpl; intuition.
Qed.

Lemma C7_reported_success_witness :
  reported_success (mkResponse None (Some "0xabc") None None) = true /\
  reported_success (mkResponse None None None None) = false /\
  In (LogTrade (status_of (reported_success (failure "No active orderbook for this market")))
               (order_id_of (failure "No active orderbook for this market")))
     (snd (monitor_cycle 10 failing_executor initial_state (Fetched [position_A]))).
Proof.
  destruct C7_reported_success as (Ha & Hb & Hc). split; [| split].
  - apply Ha. split; [discriminate |]. left. exists "0xabc". split; [reflexivity | discriminate].
  - apply Hb; reflexivity.
  - apply (Hc 10 failing_executor initial_state [position_A] position_A); reflexivity.
Defined.

Lemma spec_classify_same ps prev p :
  spec_classify ps prev = SamePosition p -> prev = Some (asset p).
Proof.
  unfold spec_classify. destruct ps; [discriminate |].
  destruct (forallb _ _); [discriminate |].
  destruct (find _ _) as [q |]; [| discriminate].
  destruct prev as [id |]; [| discriminate].
  destruct (String.eqb_spec (asset q) id); intros H; [| discriminate].
  injection H as <-. subst. reflexivity.
Qed.

(** C9 (as amended): a [SamePosition] cycle never sends the new-position
    notification, and it calls the executor once when the trigger holds
    for that cycle's prices and not at all otherwise, whether or not the
    trigger held on the previous cycle. *)
Theorem C9_same_position_cycle pct ex st ps p :
  spec_classify ps (current_position_id st) = SamePosition p ->
  count is_new_notification (snd (monitor_cycle pct ex st (Fetched ps))) = 0%nat /\
  count is_close_call (snd (monitor_cycle pct ex st (Fetched ps))) =
    if fst (calculate_stop_loss_trigger (avgPrice p) (curPrice p) pct) then 1%nat else 0%nat.
Proof.
  intros Hcl. rewrite monitor_cycle_dispatch, Hcl. split.
  - rewrite on_active_new_count, (spec_classify_same _ _ _ Hcl), String.eqb_refl.
    reflexivity.
  - apply on_active_close_count.
Qed.

Definition tracked_A : Tracked := mkTracked "Market" "Yes" (65 # 100) (55 # 100) 10 "A".
Definition state_tracking_A : LoopState := mkLoop 0 (Some "A") (Some tracked_A).

Lemma C9_same_position_cycle_witness :
  spec_classify [position_A] (current_position_id state_tracking_A) = SamePosition position_A /\
  count is_new_notification
    (snd (monitor_cycle 10 failing_executor state_tracking_A (Fetched [position_A]))) = 0%nat /\
  count is_close_call
    (snd (monitor_cycle 10 failing_executor state_tracking_A (Fetched [position_A]))) =
    (if fst (calculate_stop_loss_trigger (avgPrice position_A) (curPrice position_A) 10)
     then 1%nat else 0%nat).
Proof.
  assert (H : spec_classify [position_A] (current_position_id state_tracking_A)
              = SamePosition position_A) by reflexivity.
  split; [exact H | exact (C9_same_position_cycle 10 failing_executor state_tracking_A _ _ H)].
Defined.

(** C9, as stated, fails: after a failed liquidation the position stays
    tracked, and the next [SamePosition] cycle with unchanged prices calls
    the executor again although the trigger held already. *)
Lemma C9_counterexample :
  let st1 := fst (monitor_cycle 10 failing_executor state_tracking_A (Fetched [position_A])) in
  spec_classify [position_A] (current_position_id state_tracking_A) = SamePosition position_A /\
  spec_classify [position_A] (current_position_id st1) = SamePosition position_A /\
  fst (calculate_stop_loss_trigger (avgPrice position_A) (curPrice position_A) 10) = true /\
  count is_close_call (snd (monitor_cycle 10 failing_executor state_tracking_A
                                          (Fetched [position_A]))) = 1%nat /\
  count is_close_call (snd (monitor_cycle 10 failing_executor st1 (Fetched [position_A]))) = 1%nat.
Proof. vm_compute. repeat split. Qed.

(** C10: a [NoValidPosition] cycle leaves the consecutive network-failure
    counter unchanged, while a [NoPositions] cycle and a valid-position
    cycle that raises nothing reset it to 0. *)
Theorem C10_error_counter pct ex st ps :
  (ps = [] -> consecutive_errors (fst (monitor_cycle pct ex st (Fetched ps))) = 0%nat) /\
  (ps <> [] -> first_active ps = None ->
   consecutive_errors (fst (monitor_cycle pct ex st (Fetched ps))) = consecutive_errors st) /\
  (forall p, first_active ps = Some p ->
   (fst (calculate_stop_loss_trigger (avgPrice p) (curPrice p) pct) = false \/
    exists r, ex (asset p) (size p) = Returned r) ->
   consecutive_errors (fst (monitor_cycle pct ex st (Fetched ps))) = 0%nat).
Proof.
  split; [| split].
  - intros ->. simpl. unfold on_no_positions.
    destruct (current_position_id st); reflexivity.
  - intros Hne Hnone. destruct ps as [| q ps]; [contradiction |].
    simpl in *. rewrite Hnone. unfold on_no_valid.
    destruct (current_position_id st); reflexivity.
  - intros p Hp Hok. rewrite (monitor_cycle_active pct ex st ps p Hp). unfold on_active.
    destruct (calculate_stop_loss_trigger (avgPrice p) (curPrice p) pct) as [[|] drop];
      simpl in Hok; [| reflexivity].
    destruct Hok as [H | [r Hr]]; [discriminate |]. rewrite Hr. reflexivity.
Qed.

Definition position_invalid : Position := mkPosition "B" (1 # 2) 0 5 "Resolved" "No".

Lemma C10_error_counter_witness :
  let st := mkLoop 2 None None in
  consecutive_errors (fst (monitor_cycle 10 failing_executor st (Fetched []))) = 0%nat /\
  consecutive_errors (fst (monitor_cycle 10 failing_executor st (Fetched [position_invalid])))
    = consecutive_errors st /\
  consecutive_errors (fst (monitor_cycle 10 failing_executor st (Fetched [position_A]))) = 0%nat.
Proof.
  intros st. destruct (C10_error_counter 10 failing_executor st [] ) as [Ha _].
  destruct (C10_error_counter 10 failing_executor st [position_invalid]) as [_ [Hb _]].
  destruct (C10_error_counter 10 failing_executor st [position_A]) as [_ [_ Hc]].
  split; [apply Ha; reflexivity |]. split; [apply Hb; [discriminate | reflexivity] |].
  apply (Hc position_A); [reflexivity |]. right. eexists. reflexivity.
Defined.

(** C6 (as amended): a failed snapshot fetch increments the
    consecutive-failure counter and the loop goes on; a non-timeout network
    failure sends an error notification whenever the incremented counter is
    at least [MAX_RETRIES] = 3, once per failed cycle, so [n] such failures
    in a row from counter [c] send [n - (2 - c)] notifications; timeouts
    never send one. *)
Theorem C6_network_failures pct ex st n msg :
  (let '(st', effs) := run pct ex st (repeat (FetchRaised (RequestException msg)) n) in
   count is_error_notification effs = (n - (2 - consecutive_errors st))%nat /\
   consecutive_errors st' = (consecutive_errors st + n)%nat /\
   current_position_id st' = current_position_id st /\
   tracked_position st' = tracked_position st) /\
  (let '(st', effs) := run pct ex st (repeat (FetchRaised (Timeout msg)) n) in
   count is_error_notification effs = 0%nat /\
   consecutive_errors st' = (consecutive_errors st + n)%nat /\
   current_position_id st' = current_position_id st /\
   tracked_position st' = tracked_position st).
Proof.
  revert st. induction n as [| n IH]; intros st.
  - simpl. repeat split; lia.
  - destruct (IH (mkLoop (S (consecutive_errors st)) (current_position_id st)
                         (tracked_position st))) as [IHr IHt].
    cbn [repeat run monitor_cycle handle_exn].
    destruct (MAX_RETRIES <=? S (consecutive_errors st))%nat eqn:E;
      [apply Nat.leb_le in E | apply Nat.leb_gt in E]; unfold MAX_RETRIES in E;
      destruct (run pct ex _ (repeat (FetchRaised (RequestException msg)) n)) as [st1 e1];
      destruct (run pct ex _ (repeat (FetchRaised (Timeout msg)) n)) as [st2 e2];
      simpl in IHr, IHt; rewrite !count_app; simpl;
      destruct IHr as (H1 & H2 & H3 & H4); destruct IHt as (H5 & H6 & H7 & H8);
      destruct (consecutive_errors st) as [| [| c]];
      repeat split; try congruence; lia.
Qed.

(** C6, as stated, fails: four non-timeout network failures in a row send
    two error notifications. *)
Lemma C6_counterexample :
  count is_error_notification
    (snd (run 10 failing_executor initial_state
            (repeat (FetchRaised (RequestException "Connection refused")) 4))) = 2%nat.
Proof. vm_compute. reflexivity. Qed.

(** While an id is tracked, [tracked_position] holds a snapshot of that
    asset. *)
Definition tracking_inv (st : LoopState) : Prop :=
  forall id, current_position_id st = Some id ->
  exists t, tracked_position st = Some t /\ tr_token_id t = id.

Lemma monitor_cycle_inv pct ex st f :
  tracking_inv st -> tracking_inv (fst (monitor_cycle pct ex st f)).
Proof.
  intros Hinv.
  destruct f as [ps | e].
  2: { destruct e; exact Hinv. }
  destruct ps as [| q ps]; cbn [monitor_cycle].
  { unfold on_no_positions. destruct (current_position_id st); intros id H; simpl in H; discriminate. }
  destruct (first_active (q :: ps)) as [p |].
  2: { unfold on_no_valid. destruct (current_position_id st); [intros id H; simpl in H; discriminate | exact Hinv]. }
  unfold on_active. rewrite id_after_check.
  destruct (calculate_stop_loss_trigger (avgPrice p) (curPrice p) pct) as [[|] drop].
  2: { intros id H; simpl in H; injection H as <-; eexists; split; reflexivity. }
  destruct (ex (asset p) (size p)) as [r | e].
  - destruct (reported_success r); intros id H; simpl in H; [discriminate |].
    injection H as <-; eexists; split; reflexivity.
  - destruct e; intros id H; simpl in H; injection H as <-; eexists; split; reflexivity.
Qed.

Lemma run_inv pct ex fs st : tracking_inv st -> tracking_inv (fst (run pct ex st fs)).
Proof.
  revert st. induction fs as [| f fs IH]; intros st Hinv; [exact Hinv |].
  simpl. pose proof (monitor_cycle_inv pct ex st f Hinv) as H1.
  destruct (monitor_cycle pct ex st f) as [st1 e1]. simpl in H1.
  specialize (IH st1 H1). destruct (run pct ex st1 fs). exact IH.
Qed.

(** C8: in every state the loop reaches, a cycle whose snapshot has no
    valid entry ([NoPositions] or [NoValidPosition]) while an id is tracked
    sends one position-closed notification with the last remembered
    snapshot of that position and clears the tracked id and snapshot; with
    nothing tracked it sends no such notification. *)
Theorem C8_position_closed pct ex fs ps :
  first_active ps = None ->
  let st := fst (run pct ex initial_state fs) in
  let '(st', effs) := monitor_cycle pct ex st (Fetched ps) in
  (forall id, current_position_id st = Some id ->
     exists t reason,
       tracked_position st = Some t /\ tr_token_id t = id /\
       effs = [NotifyPositionClosed t reason; SleepPoll] /\
       current_position_id st' = None /\ tracked_position st' = None) /\
  (current_position_id st = None -> count is_closed_notification effs = 0%nat).
Proof.
  intros Hnone st.
  assert (Hinv : tracking_inv st).
  { apply run_inv. intros id H. discriminate. }
  assert (Hc : monitor_cycle pct ex st (Fetched ps) =
               match ps with [] => on_no_positions st | _ => on_no_valid st end).
  { destruct ps; [reflexivity |]. simpl. simpl in Hnone. rewrite Hnone. reflexivity. }
  rewrite Hc. clear Hc.
  destruct ps; [unfold on_no_positions | unfold on_no_valid];
    destruct (current_position_id st) as [id0 |] eqn:Hid.
  1, 3:
    split; [| intros H; discriminate];
    intros id Hsome; injection Hsome as <-;
    destruct (Hinv id0 Hid) as [t [Ht Htok]]; rewrite Ht;
    eexists t, _; repeat split; assumption.
  all: split; [intros id H; discriminate | intros _; reflexivity].
Qed.

Definition no_trigger_executor : string -> Q -> PyOutcome :=
  fun _ _ => Returned (mkResponse None (Some "0x1") None None).

Lemma C8_position_closed_witness :
  first_active [] = None /\
  (let st := fst (run 50 no_trigger_executor initial_state [Fetched [position_A]]) in
   let '(st', effs) := monitor_cycle 50 no_trigger_executor st (Fetched []) in
   (forall id, current_position_id st = Some id ->
      exists t reason,
        tracked_position st = Some t /\ tr_token_id t = id /\
        effs = [NotifyPositionClosed t reason; SleepPoll] /\
        current_position_id st' = None /\ tracked_position st' = None) /\
   (current_position_id st = None -> count is_closed_notification effs = 0%nat)).
Proof.
  split; [reflexivity |].
  exact (C8_position_closed 50 no_trigger_executor [Fetched [position_A]] [] eq_refl).
Defined.

(* ------------------------------------------------------------------ *)
(** ** bot/config.py *)

Local Set Warnings "-register-all".

(** YAML/JSON values as loaded by [yaml.safe_load]; a mapping is a Python
    dict, kept as an association list in insertion order. *)
Inductive YVal :=
| YDict (fields : list (string * YVal))
| YStr (s : string)
| YNum (q : Q)
| YBool (b : bool)
| YList (items : list YVal)
| YNull.

(** [d.get(k)]. *)
Fixpoint dict_get {A : Type} (d : list (string * A)) (k : string) : option A :=
  match d with
  | [] => None
  | (k', v) :: rest => if String.eqb k k' then Some v else dict_get rest k
  end.

(** [d[k] = v]: an existing key keeps its position, a new key is appended. *)
Fixpoint dict_set {A : Type} (d : list (string * A)) (k : string) (v : A)
  : list (string * A) :=
  match d with
  | [] => [(k, v)]
  | (k', v') :: rest =>
    if String.eqb k k' then (k', v) :: rest else (k', v') :: dict_set rest k v
  end.

(** The value [deep_merge] stores under a key: [old] is [result.get(key)]
    and [value] is [override[key]]; two dicts are merged recursively,
    anything else is replaced by [value].  The inner loop is the body of
    [deep_merge]: [result = base.copy()], then one assignment per item of
    [override], in order. *)
Fixpoint merged_value (old : option YVal) (value : YVal) {struct value} : YVal :=
  match value with
  | YDict o =>
    match old with
    | Some (YDict b) =>
      YDict ((fix go (result override : list (string * YVal)) :=
                match override with
                | [] => result
                | (key, v) :: rest =>
                  go (dict_set result key (merged_value (dict_get result key) v)) rest
                end) b o)
    | _ => value
    end
  | _ => value
  end.

(** [deep_merge(base, override)]. *)
Fixpoint deep_merge (result override : list (string * YVal)) : list (string * YVal) :=
  match override with
  | [] => result
  | (key, value) :: rest =>
    deep_merge (dict_set result key (merged_value (dict_get result key) value)) rest
  end.

Lemma merged_value_dicts b o :
  merged_value (Some (YDict b)) (YDict o) = YDict (deep_merge b o).
Proof. reflexivity. Qed.


(* ------------------------------------------------------------------ *)
(** ** bot/database.py: [_get_db_url] *)

(** [s.replace(old, new)] for a non-empty [old] (as in the code): every
    non-overlapping occurrence, scanning left to right; [fuel] is the
    length of [s]. *)
Fixpoint replace_go (fuel : nat) (old new s : string) : string :=
  match fuel with
  | O => s
  | S f =>
    match s with
    | EmptyString => EmptyString
    | String c s' =>
      if startswith old s
      then String.append new
             (replace_go f old new
                (substring (String.length old) (String.length s - String.length old) s))
      else String c (replace_go f old new s')
    end
  end.

Definition str_replace (old new s : string) : string :=
  replace_go (String.length s) old new s.

(** [_get_db_url()]. *)
Definition get_db_url (env : string -> option string) : PyRes string :=
  match get_env env "TURSO_DATABASE_URL" true with
  | Err e => Err e
  | Ok v =>
    let db_url := match v with Some s => s | None => "" end in
    if startswith "libsql://" db_url
    then Ok (str_replace "libsql://" "https://" db_url)
    else Ok db_url
  end.

(* ------------------------------------------------------------------ *)
(** ** Further properties of the code *)

Lemma dict_get_set_eq {A} (d : list (string * A)) k v : dict_get (dict_set d k v) k = Some v.
Proof.
  induction d as [| [k' v'] d IH]; simpl; [rewrite String.eqb_refl; reflexivity |].
  destruct (String.eqb_spec k k') as [-> | Hne]; simpl.
  - rewrite String.eqb_refl. reflexivity.
  - destruct (String.eqb_spec k k'); [contradiction | exact IH].
Qed.

Lemma dict_get_set_neq {A} (d : list (string * A)) k k0 v :
  k0 <> k -> dict_get (dict_set d k v) k0 = dict_get d k0.
Proof.
  intros Hne. induction d as [| [k' v'] d IH]; simpl.
  - destruct (String.eqb_spec k0 k); [contradiction | reflexivity].
  - destruct (String.eqb_spec k k') as [-> | Hkk]; simpl.
    + destruct (String.eqb_spec k0 k'); [contradiction | reflexivity].
    + destruct (String.eqb k0 k'); [reflexivity | exact IH].
Qed.

Lemma dict_get_notin {A} (d : list (string * A)) k : ~ In k (map fst d) -> dict_get d k = None.
Proof.
  induction d as [| [k' v'] d IH]; simpl; intros H; [reflexivity |].
  destruct (String.eqb_spec k k') as [-> | _]; [exfalso; apply H; left; reflexivity |].
  apply IH. intros H'. apply H. right. exact H'.
Qed.

Lemma dict_set_keys {A} (d : list (string * A)) k v :
  (In k (map fst d) -> map fst (dict_set d k v) = map fst d) /\
  (~ In k (map fst d) -> map fst (dict_set d k v) = map fst d ++ [k]).
Proof.
  induction d as [| [k' v'] d [IH1 IH2]]; simpl; [split; [intros [] | reflexivity] |].
  destruct (String.eqb_spec k k') as [-> | Hne]; simpl.
  - split; [reflexivity | intros H; exfalso; apply H; left; reflexivity].
  - split.
    + intros [H | H]; [congruence | rewrite (IH1 H); reflexivity].
    + intros H. rewrite IH2; [reflexivity |]. intros H'. apply H. right. exact H'.
Qed.

(** X1: a key of the override holds the merged value (two dicts merged
    recursively, anything else replaced by the override's value); any
    other key keeps the base's value. *)
Theorem deep_merge_get base override k :
  NoDup (map fst override) ->
  dict_get (deep_merge base override) k =
  match dict_get override k with
  | None => dict_get base k
  | Some v => Some (merged_value (dict_get base k) v)
  end.
Proof.
  revert base. induction override as [| [k' v'] rest IH]; intros base Hnd; [reflexivity |].
  simpl in Hnd. inversion Hnd as [| ? ? Hnotin Hnd']. subst.
  simpl. rewrite (IH _ Hnd').
  destruct (String.eqb_spec k k') as [-> | Hne].
  - rewrite (dict_get_notin rest k' Hnotin), dict_get_set_eq. reflexivity.
  - rewrite (dict_get_set_neq _ _ _ _ Hne). reflexivity.
Qed.

Lemma deep_merge_get_witness :
  NoDup (map fst [("stop_loss", YDict [("percentage", YNum 5)])]) /\
  dict_get (deep_merge [("stop_loss", YDict [("percentage", YNum 10);
                                             ("min_position_size", YNum 1)])]
                       [("stop_loss", YDict [("percentage", YNum 5)])]) "stop_loss" =
  Some (YDict [("percentage", YNum 5); ("min_position_size", YNum 1)]).
Proof.
  assert (H : NoDup (map fst [("stop_loss", YDict [("percentage", YNum 5)])]))
    by (repeat constructor; simpl; intuition).
  split; [exact H |].
  rewrite (deep_merge_get _ _ "stop_loss" H). reflexivity.
Defined.

(** X2: [deep_merge] keeps the base's keys in their order and appends the
    override's new keys; its keys are those of either dict, and it keeps
    the keys of a Python dict (no duplicates) unique. *)
Theorem deep_merge_keys base override :
  (exists added, map fst (deep_merge base override) = map fst base ++ added) /\
  (forall k, In k (map fst (deep_merge base override)) <->
             In k (map fst base) \/ In k (map fst override)) /\
  (NoDup (map fst base) -> NoDup (map fst (deep_merge base override))).
Proof.
  revert base. induction override as [| [k v] rest IH]; intros base.
  - simpl. split; [exists []; rewrite app_nil_r; reflexivity |].
    split; [intros k; tauto | tauto].
  - simpl. set (base' := dict_set base k (merged_value (dict_get base k) v)).
    destruct (IH base') as ([added Hadd] & Hin & Hnd).
    destruct (dict_set_keys base k (merged_value (dict_get base k) v)) as [Hk1 Hk2].
    destruct (in_dec string_dec k (map fst base)) as [Hk | Hk].
    + fold base' in Hk1. specialize (Hk1 Hk).
      split; [exists added; rewrite Hadd, Hk1; reflexivity |].
      split; [| intros H; apply Hnd; rewrite Hk1; exact H].
      intros k0. rewrite Hin, Hk1. simpl. intuition congruence.
    + fold base' in Hk2. specialize (Hk2 Hk).
      split; [exists (k :: added); rewrite Hadd, Hk2, <- app_assoc; reflexivity |].
      split.
      * intros k0. rewrite Hin, Hk2, in_app_iff. simpl. intuition congruence.
      * intros H. apply Hnd. rewrite Hk2. apply NoDup_app; auto.
        -- repeat constructor; intros [].
        -- intros x Hx [Hy | []]. subst. contradiction.
Qed.

Lemma substring_0_length s : substring 0 (String.length s) s = s.
Proof. induction s as [| c s IH]; simpl; [reflexivity | rewrite IH; reflexivity]. Qed.

Lemma replace_go_absent f old new s :
  contains old s = false -> replace_go f old new s = s.
Proof.
  revert s. induction f as [| f IH]; intros s H; [reflexivity |].
  destruct s as [| c s']; [reflexivity |].
  simpl in H |- *. apply orb_false_iff in H as [H1 H2].
  unfold startswith in H1 |- *. fold startswith in H1 |- *. rewrite H1.
  rewrite (IH s' H2). reflexivity.
Qed.

Lemma string_length_append p r :
  String.length (String.append p r) = (String.length p + String.length r)%nat.
Proof. induction p as [| c p IH]; simpl; [reflexivity | rewrite IH; reflexivity]. Qed.

Lemma startswith_append p r : startswith p (String.append p r) = true.
Proof.
  induction p as [| c p IH]; [destruct r; reflexivity |].
  simpl. rewrite Ascii.eqb_refl. exact IH.
Qed.

Lemma substring_append p r m :
  substring (String.length p) m (String.append p r) = substring 0 m r.
Proof. induction p as [| c p IH]; [reflexivity | exact IH]. Qed.

Lemma replace_go_prefix n old new r :
  old <> "" -> contains old r = false ->
  replace_go (S n) old new (String.append old r) = String.append new r.
Proof.
  intros Hne Hr. destruct old as [| c old']; [contradiction |].
  cbn [replace_go String.append].
  change (String c (String.append old' r)) with (String.append (String c old') r).
  rewrite startswith_append, string_length_append, substring_append.
  replace (String.length (String c old') + String.length r - String.length (String c old'))%nat
    with (String.length r) by lia.
  rewrite substring_0_length, replace_go_absent by exact Hr. reflexivity.
Qed.

(** X4: a [libsql://] database URL is rewritten to the same URL with the
    [https://] scheme (when the prefix does not occur again in the rest). *)
Theorem get_db_url_libsql env rest :
  env "TURSO_DATABASE_URL" = Some (String.append "libsql://" rest) ->
  contains "libsql://" rest = false ->
  get_db_url env = Ok (String.append "https://" rest).
Proof.
  intros Henv Hrest. unfold get_db_url, get_env. rewrite Henv.
  change (py_truthy (Some (String.append "libsql://" rest))) with true.
  cbn -[startswith str_replace String.append].
  rewrite startswith_append. unfold str_replace. rewrite string_length_append.
  exact (f_equal Ok (replace_go_prefix (8 + String.length rest) "libsql://" "https://" rest
                                        ltac:(discriminate) Hrest)).
Qed.

Lemma get_db_url_libsql_witness :
  get_db_url (fun _ => Some "libsql://bot-db.turso.io") = Ok "https://bot-db.turso.io".
Proof.
  apply (get_db_url_libsql (fun _ => Some "libsql://bot-db.turso.io") "bot-db.turso.io");
    reflexivity.
Defined.

(* ------------------------------------------------------------------ *)
(** ** bot/database.py: [_execute], [init_tables], [log_trade],
    [get_trade_history] *)

(** A value passed as an SQL argument. *)
Inductive SqlArg := AStr (s : string) | AFloat (q : Q) | ANone.

(** One HTTP request sent to the database: URL, headers, JSON body. *)
Record DbRequest := mkDbRequest {
  req_url : string;
  req_headers : list (string * string);
  req_body : YVal
}.

(** [str(v)] on an int. *)
Fixpoint digits_go (fuel : nat) (n : N) (acc : string) : string :=
  match fuel with
  | O => acc
  | S f =>
    let acc' := String (Ascii.ascii_of_N (48 + N.modulo n 10)) acc in
    if (N.div n 10 =? 0)%N then acc' else digits_go f (N.div n 10) acc'
  end.

Definition py_str_int (z : Z) : string :=
  match z with
  | Z0 => "0"
  | Zpos p => digits_go (Pos.size_nat p) (Npos p) ""
  | Zneg p => String "-" (digits_go (Pos.size_nat p) (Npos p) "")
  end.

(** An f-string [f"{x}"] on an [Optional[str]]. *)
Definition py_str_opt (o : option string) : string :=
  match o with Some s => s | None => "None" end.

(** Python's equality and hashability on the scalar JSON values used as
    dict keys ([1 == 1.0 == True]); lists and dicts are unhashable. *)
Definition py_hashable (v : YVal) : bool :=
  match v with YList _ | YDict _ => false | _ => true end.

Definition py_eq (a b : YVal) : bool :=
  match a, b with
  | YStr s, YStr t => String.eqb s t
  | YNum x, YNum y => Qeq_bool x y
  | YBool x, YBool y => Bool.eqb x y
  | YNum x, YBool y | YBool y, YNum x => Qeq_bool x (if y then 1 else 0)
  | YNull, YNull => true
  | _, _ => false
  end.

(** A Python dict with JSON keys: [d[k] = v] keeps the first key object
    and its position, and replaces the value. *)
Fixpoint pydict_set (d : list (YVal * YVal)) (k v : YVal) : list (YVal * YVal) :=
  match d with
  | [] => [(k, v)]
  | (k', v') :: rest => if py_eq k k' then (k', v) :: rest else (k', v') :: pydict_set rest k v
  end.

Fixpoint pydict_get (d : list (YVal * YVal)) (k : YVal) : option YVal :=
  match d with
  | [] => None
  | (k', v) :: rest => if py_eq k k' then Some v else pydict_get rest k
  end.

(** [dict(pairs)]; [None] is the [TypeError] of an unhashable key. *)
Fixpoint dict_of_pairs_go (d : list (YVal * YVal)) (pairs : list (YVal * YVal))
  : option (list (YVal * YVal)) :=
  match pairs with
  | [] => Some d
  | (k, v) :: rest =>
    if py_hashable k then dict_of_pairs_go (pydict_set d k v) rest else None
  end.

Definition dict_of_pairs (pairs : list (YVal * YVal)) : option (list (YVal * YVal)) :=
  dict_of_pairs_go [] pairs.

(** [iter(v)] on a JSON value: a list yields its items, a dict its keys, a
    string its characters; [None] is the [TypeError] of a number, a bool or
    [None]. *)
Definition py_iter (v : YVal) : option (list YVal) :=
  match v with
  | YList l => Some l
  | YDict d => Some (map (fun kv => YStr (fst kv)) d)
  | YStr s => Some (map (fun c => YStr (String c "")) (list_ascii_of_string s))
  | _ => None
  end.

Fixpoint opt_map {A B : Type} (f : A -> option B) (l : list A) : option (list B) :=
  match l with
  | [] => Some []
  | x :: rest =>
    match f x with
    | None => None
    | Some y => match opt_map f rest with None => None | Some ys => Some (y :: ys) end
    end
  end.

Definition create_table_sql : string := "
        CREATE TABLE IF NOT EXISTS trade_history (
            id INTEGER PRIMARY KEY AUTOINCREMENT,
            timestamp TEXT NOT NULL,
            market_title TEXT NOT NULL,
            token_id TEXT NOT NULL,
            outcome TEXT,
            action TEXT NOT NULL,
            entry_price REAL NOT NULL,
            exit_price REAL NOT NULL,
            shares REAL NOT NULL,
            loss_percentage REAL NOT NULL,
            order_id TEXT,
            status TEXT
        )
    ".

Definition insert_sql : string := "
        INSERT INTO trade_history
        (timestamp, market_title, token_id, outcome, action, entry_price,
         exit_price, shares, loss_percentage, order_id, status)
        VALUES (?, ?, ?, ?, ?, ?, ?, ?, ?, ?, ?)
    ".

Definition history_sql (limit : Z) : string :=
  String.append "
        SELECT * FROM trade_history
        ORDER BY timestamp DESC
        LIMIT " (String.append (py_str_int limit) "
    ").

Section Database.

(** The process environment. *)
Variable env : string -> option string.
(** [requests.post(url, json=body, headers=headers, timeout=30)] followed
    by [raise_for_status()] and [json()]: the parsed JSON, or the exception
    one of them raises. *)
Variable post : string -> list (string * string) -> YVal -> PyRes YVal.
(** [str(v)] on a float. *)
Variable float_str : Q -> string.

Definition arg_param (v : SqlArg) : YVal :=
  match v with
  | AStr s => YStr s
  | AFloat q => YStr (float_str q)
  | ANone => YNull
  end.

(** The body [{"statements": [statement]}]; ["params"] only for a
    non-empty argument list. *)
Definition execute_body (sql : string) (args : option (list SqlArg)) : YVal :=
  let statement :=
    match args with
    | Some ((_ :: _) as a) => [("q", YStr sql); ("params", YList (map arg_param a))]
    | _ => [("q", YStr sql)]
    end in
  YDict [("statements", YList [YDict statement])].

(** [_execute(sql, args)]: the result and the requests sent. *)
Definition execute (sql : string) (args : option (list SqlArg))
  : PyRes YVal * list DbRequest :=
  match get_db_url env with
  | Err e => (Err e, [])
  | Ok db_url =>
    match get_env env "TURSO_AUTH_TOKEN" true with
    | Err e => (Err e, [])
    | Ok auth_token =>
      let headers := [("Authorization", String.append "Bearer " (py_str_opt auth_token));
                      ("Content-Type", "application/json")] in
      let body := execute_body sql args in
      (post db_url headers body, [mkDbRequest db_url headers body])
    end
  end.

(** [init_tables()], with the module flag [_initialized] passed in and
    returned. *)
Definition init_tables (initialized : bool) : PyRes unit * bool * list DbRequest :=
  if initialized then (Ok tt, true, [])
  else
    let '(r, reqs) := execute create_table_sql None in
    match r with
    | Ok _ => (Ok tt, true, reqs)
    | Err e => (Err e, false, reqs)
    end.

Definition opt_arg (o : option string) : SqlArg :=
  match o with Some s => AStr s | None => ANone end.

Definition log_trade_args (timestamp market_title token_id : string)
  (outcome : option string) (action : string)
  (entry_price exit_price shares loss_percentage : Q)
  (order_id : option string) (status : string) : list SqlArg :=
  [AStr timestamp; AStr market_title; AStr token_id; opt_arg outcome; AStr action;
   AFloat entry_price; AFloat exit_price; AFloat shares; AFloat loss_percentage;
   opt_arg order_id; AStr status].

(** [result[0].get("results", {}).get("last_insert_rowid")] behind
    [if result and len(result) > 0]; every exception on the way ([len] of
    a number, [result[0]] on a dict, [.get] on a non-dict) is caught by the
    [except] and gives [None], as does an empty result. *)
Definition rowid_of (result : YVal) : option YVal :=
  match result with
  | YList (YDict d :: _) =>
    match dict_get d "results" with
    | None => None
    | Some (YDict r) =>
      match dict_get r "last_insert_rowid" with
      | None | Some YNull => None
      | Some v => Some v
      end
    | Some _ => None
    end
  | _ => None
  end.

(** [log_trade(...)]; the timestamp is [datetime.utcnow().isoformat()]. *)
Definition log_trade (initialized : bool) (timestamp market_title token_id : string)
  (outcome : option string) (action : string)
  (entry_price exit_price shares loss_percentage : Q)
  (order_id : option string) (status : string)
  : PyRes (option YVal) * bool * list DbRequest :=
  let '(r0, init1, reqs0) := init_tables initialized in
  match r0 with
  | Err e => (Err e, init1, reqs0)
  | Ok _ =>
    let args := log_trade_args timestamp market_title token_id outcome action
                  entry_price exit_price shares loss_percentage order_id status in
    let '(r, reqs) := execute insert_sql (Some args) in
    (Ok (match r with Ok result => rowid_of result | Err _ => None end),
     init1, reqs0 ++ reqs)
  end.

(** [dict(zip(columns, row))]; [None] is a [TypeError]. *)
Definition zip_row (columns row : YVal) : option (list (YVal * YVal)) :=
  match py_iter columns, py_iter row with
  | Some cs, Some vs => dict_of_pairs (combine cs vs)
  | _, _ => None
  end.

(** [[dict(zip(columns, row)) for row in rows]] from the first result;
    [None] is an exception, caught by the [except] of [get_trade_history]. *)
Definition records_of (result : YVal) : option (list (list (YVal * YVal))) :=
  match result with
  | YList (YDict d :: _) =>
    match dict_get d "results" with
    | None => Some []
    | Some (YDict r) =>
      let columns := match dict_get r "columns" with Some c => c | None => YList [] end in
      let rows := match dict_get r "rows" with Some c => c | None => YList [] end in
      match py_iter rows with
      | None => None
      | Some rs =>
        opt_map (zip_row columns) rs
      end
    | Some _ => None
    end
  | _ => None
  end.

(** [get_trade_history(limit)]. *)
Definition get_trade_history (initialized : bool) (limit : Z)
  : PyRes (list (list (YVal * YVal))) * bool * list DbRequest :=
  let '(r0, init1, reqs0) := init_tables initialized in
  match r0 with
  | Err e => (Err e, init1, reqs0)
  | Ok _ =>
    let '(r, reqs) := execute (history_sql limit) None in
    (Ok (match r with
         | Ok result => match records_of result with Some l => l | None => [] end
         | Err _ => []
         end),
     init1, reqs0 ++ reqs)
  end.

End Database.

Lemma execute_requests env post float_str sql args r reqs :
  execute env post float_str sql args = (r, reqs) ->
  (List.length reqs <= 1)%nat /\
  Forall (fun q => req_body q = execute_body float_str sql args) reqs.
Proof.
  unfold execute. intros H.
  destruct (get_db_url env); [| injection H as _ <-; simpl; auto].
  destruct (get_env env "TURSO_AUTH_TOKEN" true); injection H as _ <-; simpl; auto.
Qed.

(** X6: [log_trade] raises only when the tables were not initialised and
    their creation failed: then the flag stays unset and only the CREATE
    request was sent, no INSERT. Whenever it returns, the flag is set; once
    the flag is set, it never raises and sends at most the one INSERT
    request, with the trade's arguments. *)
Theorem log_trade_outcome env post float_str initialized ts title token outcome action
    entry exit shares loss order_id status r initialized' reqs :
  log_trade env post float_str initialized ts title token outcome action
    entry exit shares loss order_id status = (r, initialized', reqs) ->
  (forall e, r = Err e ->
     initialized = false /\ initialized' = false /\ (List.length reqs <= 1)%nat /\
     Forall (fun q => req_body q = execute_body float_str create_table_sql None) reqs) /\
  (forall v, r = Ok v -> initialized' = true) /\
  (initialized = true ->
     (exists v, r = Ok v) /\ (List.length reqs <= 1)%nat /\
     Forall (fun q => req_body q =
                      execute_body float_str insert_sql
                        (Some (log_trade_args ts title token outcome action
                                 entry exit shares loss order_id status))) reqs).
Proof.
  unfold log_trade, init_tables. intros H. destruct initialized.
  - destruct (execute env post float_str insert_sql _) as [r1 reqs1] eqn:E1.
    destruct (execute_requests _ _ _ _ _ _ _ E1) as [Hl Hf].
    injection H as <- <- <-. simpl.
    split; [intros e He; discriminate |]. split; [auto |].
    intros _. split; [eexists; reflexivity | auto].
  - destruct (execute env post float_str create_table_sql None) as [r0 reqs0] eqn:E0.
    destruct (execute_requests _ _ _ _ _ _ _ E0) as [Hl0 Hf0].
    destruct r0 as [v0 | e0].
    + destruct (execute env post float_str insert_sql _) as [r1 reqs1] eqn:E1.
      injection H as <- <- <-.
      split; [intros e He; discriminate |]. split; [auto | discriminate].
    + injection H as <- <- <-.
      split; [auto |]. split; [discriminate | discriminate].
Qed.

Definition turso_env (k : string) : option string :=
  if String.eqb k "TURSO_DATABASE_URL" then Some "libsql://bot-db.turso.io"
  else if String.eqb k "TURSO_AUTH_TOKEN" then Some "token" else None.

Definition unreachable_post (_ : string) (_ : list (string * string)) (_ : YVal)
  : PyRes YVal := Err (RequestException "Connection refused").

Definition float_str_example (_ : Q) : string := "0.5".

Definition log_trade_unreachable : PyRes (option YVal) * bool * list DbRequest :=
  log_trade turso_env unreachable_post float_str_example false "2024-01-01T00:00:00"
    "Market" "tok" (Some "Yes") "STOP_LOSS" (1#2) (2#5) 10 20 None "failed".

Lemma log_trade_outcome_witness :
  fst (fst log_trade_unreachable) = Err (RequestException "Connection refused") /\
  snd (fst log_trade_unreachable) = false.
Proof.
  destruct (log_trade_outcome turso_env unreachable_post float_str_example false
    "2024-01-01T00:00:00" "Market" "tok" (Some "Yes") "STOP_LOSS" (1#2) (2#5) 10 20 None
    "failed" (fst (fst log_trade_unreachable)) (snd (fst log_trade_unreachable))
    (snd log_trade_unreachable) eq_refl) as [H1 _].
  split; [reflexivity |].
  exact (proj1 (proj2 (H1 (RequestException "Connection refused") eq_refl))).
Defined.

Lemma pydict_get_set_str_eq d c v : pydict_get (pydict_set d (YStr c) v) (YStr c) = Some v.
Proof.
  induction d as [| [k' v'] d IH]; simpl; [rewrite String.eqb_refl; reflexivity |].
  destruct k'; simpl; try exact IH.
  destruct (String.eqb c s) eqn:E; simpl; rewrite ?E; [reflexivity | exact IH].
Qed.

Lemma pydict_get_set_str_neq d c k v :
  py_eq k (YStr c) = false -> pydict_get (pydict_set d (YStr c) v) k = pydict_get d k.
Proof.
  intros Hne. induction d as [| [k' v'] d IH]; [simpl; rewrite Hne; reflexivity |].
  cbn [pydict_set]. destruct (py_eq (YStr c) k') eqn:E.
  - destruct k'; try discriminate. simpl in E.
    apply String.eqb_eq in E. subst. cbn [pydict_get]. rewrite Hne. reflexivity.
  - cbn [pydict_get]. destruct (py_eq k k'); [reflexivity | exact IH].
Qed.

Lemma dict_of_zip_go d cs vs :
  NoDup cs -> (forall c, In c cs -> pydict_get d (YStr c) = None) ->
  exists rec, dict_of_pairs_go d (combine (map YStr cs) vs) = Some rec /\
    (forall j c, nth_error cs j = Some c -> pydict_get rec (YStr c) = nth_error vs j) /\
    (forall k, (forall c, In c cs -> py_eq k (YStr c) = false) ->
               pydict_get rec k = pydict_get d k).
Proof.
  revert d vs. induction cs as [| c cs IH]; intros d vs Hnd Hnone.
  - exists d. split; [reflexivity |]. split; [| reflexivity].
    intros [|j] c' H; discriminate.
  - destruct vs as [| v vs].
    + exists d. split; [reflexivity |]. split; [| reflexivity].
      intros j c' H. rewrite Hnone; [destruct j; reflexivity | exact (nth_error_In _ _ H)].
    + inversion Hnd as [| ? ? Hc Hnd']. subst.
      destruct (IH (pydict_set d (YStr c) v) vs Hnd') as (rec & Hgo & Hnth & Hkeep).
      { intros c' Hc'. rewrite pydict_get_set_str_neq.
        - apply Hnone. right. exact Hc'.
        - simpl. apply String.eqb_neq. intros ->. contradiction. }
      exists rec. split; [exact Hgo |]. split.
      * intros [| j] c' H; simpl in H.
        -- injection H as <-. rewrite Hkeep; [apply pydict_get_set_str_eq |].
           intros c'' Hc''. simpl. apply String.eqb_neq. intros ->. contradiction.
        -- exact (Hnth j c' H).
      * intros k Hk. rewrite Hkeep.
        -- apply pydict_get_set_str_neq. apply Hk. left. reflexivity.
        -- intros c'' Hc''. apply Hk. right. exact Hc''.
Qed.

Lemma records_of_rows cols rows :
  NoDup cols ->
  exists recs,
    opt_map (zip_row (YList (map YStr cols))) (map YList rows) = Some recs /\
    Forall2 (fun row rec => forall j c, nth_error cols j = Some c ->
                                        pydict_get rec (YStr c) = nth_error row j) rows recs.
Proof.
  intros Hnd. induction rows as [| row rows [recs [Hrecs Hall]]]; [exists []; auto |].
  destruct (dict_of_zip_go [] cols row Hnd (fun _ _ => eq_refl)) as (rec & Hrec & Hnth & _).
  assert (Hz : zip_row (YList (map YStr cols)) (YList row) = Some rec) by exact Hrec.
  exists (rec :: recs). cbn [map opt_map]. rewrite Hz, Hrecs.
  split; [reflexivity |]. constructor; assumption.
Qed.

Lemma Forall2_nth_error {A B} (P : A -> B -> Prop) l1 l2 i a b :
  Forall2 P l1 l2 -> nth_error l1 i = Some a -> nth_error l2 i = Some b -> P a b.
Proof.
  intros H. revert i. induction H as [| x y l1 l2 Hxy _ IH]; intros [| i] H1 H2;
    try discriminate.
  - simpl in H1, H2. injection H1 as <-. injection H2 as <-. exact Hxy.
  - exact (IH i H1 H2).
Qed.

Lemma get_db_url_ok env :
  py_truthy (env "TURSO_DATABASE_URL") = true -> exists u, get_db_url env = Ok u.
Proof.
  unfold get_db_url, get_env. intros H. rewrite H. cbn -[startswith str_replace].
  match goal with |- context [if ?b then _ else _] => destruct b end;
    eexists; reflexivity.
Qed.

(** X7: when the SELECT answers with columns (distinct names) and rows,
    [get_trade_history] returns one record per row, and each record maps
    every column to the row's cell at the column's index; a column past the
    end of a short row is absent from its record ([zip] truncates). *)
Theorem get_trade_history_records env post float_str initialized limit d res cols rows more
    recs initialized' reqs :
  py_truthy (env "TURSO_DATABASE_URL") = true ->
  py_truthy (env "TURSO_AUTH_TOKEN") = true ->
  (forall url headers, post url headers (execute_body float_str (history_sql limit) None) =
                       Ok (YList (YDict d :: more))) ->
  dict_get d "results" = Some (YDict res) ->
  dict_get res "columns" = Some (YList (map YStr cols)) ->
  dict_get res "rows" = Some (YList (map YList rows)) ->
  NoDup cols ->
  get_trade_history env post float_str initialized limit = (Ok recs, initialized', reqs) ->
  List.length recs = List.length rows /\
  (forall i rec row, nth_error recs i = Some rec -> nth_error rows i = Some row ->
     forall j c, nth_error cols j = Some c -> pydict_get rec (YStr c) = nth_error row j).
Proof.
  intros Hurl Htok Hpost Hres Hcols Hrows Hnd H.
  destruct (records_of_rows cols rows Hnd) as (recs0 & Hrecs0 & Hall).
  assert (Hex : fst (execute env post float_str (history_sql limit) None) = Ok (YList (YDict d :: more))).
  { unfold execute. destruct (get_db_url_ok env Hurl) as [u ->].
    unfold get_env. rewrite Htok. simpl. apply Hpost. }
  assert (Hrec : records_of (YList (YDict d :: more)) = Some recs0).
  { unfold records_of. rewrite Hres, Hcols, Hrows. exact Hrecs0. }
  unfold get_trade_history in H.
  destruct (init_tables env post float_str initialized) as [[r0 i1] reqs0].
  destruct r0; [| discriminate].
  destruct (execute env post float_str (history_sql limit) None) as [r1 reqs1].
  simpl in Hex. subst r1. rewrite Hrec in H. injection H as <- _ _.
  split; [symmetry; exact (Forall2_length Hall) |].
  intros i rec row Hi Hrow. exact (Forall2_nth_error _ _ _ _ _ _ Hall Hrow Hi).
Qed.

Definition history_result : YVal :=
  YList [YDict [("results", YDict [("columns", YList [YStr "id"; YStr "status"]);
                                   ("rows", YList [YList [YNum 1; YStr "success"];
                                                  YList [YNum 2]])])]].

Definition history_post (_ : string) (_ : list (string * string)) (_ : YVal)
  : PyRes YVal := Ok history_result.

Definition history_records : list (list (YVal * YVal)) :=
  [[(YStr "id", YNum 1); (YStr "status", YStr "success")]; [(YStr "id", YNum 2)]].

Definition history_reqs : list DbRequest :=
  snd (get_trade_history turso_env history_post float_str_example true 100).

Lemma get_trade_history_records_witness :
  List.length history_records = 2%nat /\
  pydict_get [(YStr "id", YNum 2)] (YStr "status") = None.
Proof.
  destruct (get_trade_history_records turso_env history_post float_str_example true 100
    [("results", YDict [("columns", YList [YStr "id"; YStr "status"]);
                        ("rows", YList [YList [YNum 1; YStr "success"]; YList [YNum 2]])])]
    [("columns", YList [YStr "id"; YStr "status"]);
     ("rows", YList [YList [YNum 1; YStr "success"]; YList [YNum 2]])]
    ["id"; "status"] [[YNum 1; YStr "success"]; [YNum 2]] [] history_records true
    history_reqs eq_refl eq_refl (fun _ _ => eq_refl) eq_refl eq_refl eq_refl
    ltac:(repeat constructor; simpl; intuition discriminate)
    ltac:(vm_compute; reflexivity)) as [Hlen Hnth].
  split; [exact Hlen |].
  exact (Hnth 1%nat [(YStr "id", YNum 2)] [YNum 2] eq_refl eq_refl 1%nat "status" eq_refl).
Defined.

(* ------------------------------------------------------------------ *)
(** ** [int(s)] on a string *)

(** Python's whitespace among the ASCII characters ([str.isspace]). *)
Definition is_space (c : ascii) : bool :=
  let n := nat_of_ascii c in
  (Nat.leb 9 n && Nat.leb n 13) || (Nat.leb 28 n && Nat.leb n 32).

Fixpoint lstrip (l : list ascii) : list ascii :=
  match l with
  | c :: r => if is_space c then lstrip r else l
  | [] => []
  end.

Definition strip (l : list ascii) : list ascii := rev (lstrip (rev (lstrip l))).

Definition digit_value (c : ascii) : option N :=
  let n := N_of_ascii c in
  if (48 <=? n)%N && (n <=? 57)%N then Some (n - 48)%N else None.

(** Decimal digits, with single underscores allowed between digits. *)
Fixpoint int_digits (acc : Z) (after_digit : bool) (l : list ascii) : option Z :=
  match l with
  | [] => if after_digit then Some acc else None
  | c :: r =>
    match digit_value c with
    | Some d => int_digits (acc * 10 + Z.of_N d)%Z true r
    | None => if Ascii.eqb c "_" && after_digit then int_digits acc false r else None
    end
  end.

(** [int(s)]: [None] is the [ValueError] of a string that is not a
    base-10 integer literal (surrounding whitespace and a sign allowed). *)
Definition int_sign (l : list ascii) : option Z :=
  match l with
  | "-"%char :: r => option_map Z.opp (int_digits 0 false r)
  | "+"%char :: r => int_digits 0 false r
  | l => int_digits 0 false l
  end.

Definition py_int (s : string) : option Z := int_sign (strip (list_ascii_of_string s)).

Lemma digit_char m : (m < 10)%N ->
  digit_value (Ascii.ascii_of_N (48 + m)) = Some m /\
  is_space (Ascii.ascii_of_N (48 + m)) = false /\
  Ascii.eqb (Ascii.ascii_of_N (48 + m)) "-" = false /\
  Ascii.eqb (Ascii.ascii_of_N (48 + m)) "+" = false.
Proof.
  intros H.
  assert (Hc : (m = 0 \/ m = 1 \/ m = 2 \/ m = 3 \/ m = 4 \/ m = 5 \/ m = 6 \/ m = 7 \/
                m = 8 \/ m = 9)%N) by lia.
  repeat destruct Hc as [-> | Hc]; [.. | subst]; vm_compute; auto.
Qed.

Lemma int_sign_plain c r :
  Ascii.eqb c "-" = false -> Ascii.eqb c "+" = false ->
  int_sign (c :: r) = int_digits 0 false (c :: r).
Proof.
  intros H1 H2. destruct c as [[] [] [] [] [] [] [] []];
    first [reflexivity | discriminate].
Qed.

Lemma lstrip_nospace l : Forall (fun c => is_space c = false) l -> lstrip l = l.
Proof. intros H. destruct H as [| c l Hc _]; [reflexivity | simpl; rewrite Hc; reflexivity]. Qed.

Lemma strip_nospace l : Forall (fun c => is_space c = false) l -> strip l = l.
Proof.
  intros H. unfold strip. rewrite (lstrip_nospace l H).
  rewrite lstrip_nospace; [apply rev_involutive | apply Forall_rev; exact H].
Qed.

Lemma digits_go_spec f : forall n acc a st,
  (0 < n)%N -> (n < 10 ^ N.of_nat f)%N ->
  (exists k, int_digits a st (list_ascii_of_string (digits_go f n acc)) =
             int_digits (a * 10 ^ Z.of_nat k + Z.of_N n)%Z true (list_ascii_of_string acc)) /\
  (Forall (fun c => is_space c = false) (list_ascii_of_string acc) ->
   Forall (fun c => is_space c = false) (list_ascii_of_string (digits_go f n acc))) /\
  (exists c r, list_ascii_of_string (digits_go f n acc) = c :: r /\
               Ascii.eqb c "-" = false /\ Ascii.eqb c "+" = false).
Proof.
  induction f as [| f IH]; intros n acc a st Hpos Hlt.
  - simpl in Hlt. lia.
  - assert (Hm : (n mod 10 < 10)%N) by (apply N.mod_lt; discriminate).
    destruct (digit_char (n mod 10) Hm) as (Hdv & Hsp & Hminus & Hplus).
    pose proof (N.div_mod n 10 ltac:(discriminate)) as Hdm.
    cbn [digits_go]. destruct (N.eqb_spec (n / 10) 0) as [Hq | Hq].
    + cbn [list_ascii_of_string int_digits]. rewrite Hdv. split; [| split].
      * exists 1%nat. f_equal. rewrite Hq in Hdm. simpl. lia.
      * intros H. constructor; assumption.
      * eexists _, _. split; [reflexivity | auto].
    + assert (Hq' : (n / 10 < 10 ^ N.of_nat f)%N).
      { apply N.Div0.div_lt_upper_bound.
        rewrite Nat2N.inj_succ, N.pow_succ_r' in Hlt. exact Hlt. }
      destruct (IH (n / 10)%N (String (Ascii.ascii_of_N (48 + n mod 10)%N) acc) a st
                  ltac:(lia) Hq') as ([k Hk] & Hsp' & Hfirst).
      split; [| split].
      * exists (S k). rewrite Hk. cbn [list_ascii_of_string int_digits]. rewrite Hdv. f_equal.
        rewrite Nat2Z.inj_succ, Z.pow_succ_r by lia. nia.
      * intros H. apply Hsp'. cbn [list_ascii_of_string]. constructor; assumption.
      * exact Hfirst.
Qed.

Lemma pos_lt_pow10 p : (Npos p < 10 ^ N.of_nat (Pos.size_nat p))%N.
Proof.
  assert (H2 : (Npos p < 2 ^ N.of_nat (Pos.size_nat p))%N).
  { induction p as [p IH | p IH |]; [| | reflexivity];
      cbn [Pos.size_nat]; rewrite Nat2N.inj_succ, N.pow_succ_r'; lia. }
  eapply N.lt_le_trans; [exact H2 |].
  apply N.pow_le_mono_l. lia.
Qed.

(** X8: [int(str(n)) == n]: the decimal text of an int reads back as the
    same int. *)
Theorem py_int_str_roundtrip z : py_int (py_str_int z) = Some z.
Proof.
  destruct z as [| p | p]; [reflexivity | |].
  - unfold py_int, py_str_int.
    destruct (digits_go_spec (Pos.size_nat p) (Npos p) "" 0 false
                eq_refl (pos_lt_pow10 p)) as ([k Hk] & Hsp & (c & r & Hcr & H1 & H2)).
    rewrite strip_nospace by (apply Hsp; constructor).
    rewrite Hcr, int_sign_plain by assumption. rewrite <- Hcr, Hk. reflexivity.
  - unfold py_int, py_str_int.
    destruct (digits_go_spec (Pos.size_nat p) (Npos p) "" 0 false
                eq_refl (pos_lt_pow10 p)) as ([k Hk] & Hsp & _).
    rewrite strip_nospace.
    + cbn [list_ascii_of_string int_sign]. rewrite Hk. reflexivity.
    + cbn [list_ascii_of_string]. constructor; [reflexivity |]. apply Hsp. constructor.
Qed.

(* ------------------------------------------------------------------ *)
(** ** bot/notifications.py *)

(** Python truthiness of a JSON value. *)
Definition yval_truthy (v : YVal) : bool :=
  match v with
  | YDict d => negb (Nat.eqb (List.length d) 0)
  | YList l => negb (Nat.eqb (List.length l) 0)
  | YStr s => negb (String.eqb s "")
  | YNum q => negb (Qeq_bool q 0)
  | YBool b => b
  | YNull => false
  end.

(** [config.get(name, {})] used as a dict; [None] is the [AttributeError]
    of a section that is not a mapping. *)
Definition config_section (config : list (string * YVal)) (name : string)
  : option (list (string * YVal)) :=
  match dict_get config name with
  | None => Some []
  | Some (YDict d) => Some d
  | Some _ => None
  end.

(** [section.get(key, True)], as a condition. *)
Definition flag_on (section : list (string * YVal)) (key : string) : bool :=
  match dict_get section key with Some v => yval_truthy v | None => true end.

(** [TELEGRAM_API_URL.format(token=token)]. *)
Definition telegram_url (token : string) : string :=
  String.append "https://api.telegram.org/bot" (String.append token "/sendMessage").

Record TgRequest := mkTgRequest {
  tg_url : string;
  tg_payload : list (string * YVal)
}.

(** The outcome of [requests.post(url, json=payload, timeout=10)]: a
    response and its [ok] flag, or a raised exception ([OtherException]
    standing for one that is neither a [RequestException] nor a
    [ValueError]). *)
Inductive TgResult := TgResponse (ok : bool) | TgRaised (e : PyExn).

Definition telegram_error : PyExn := OtherException "'telegram' object has no attribute 'get'".

(** [send_telegram(message)], with [config] the dict [load_config()]
    returns: its result and the requests posted. *)
Definition send_telegram (config : list (string * YVal)) (env : string -> option string)
  (post : TgRequest -> TgResult) (message : string) : PyRes bool * list TgRequest :=
  match config_section config "telegram" with
  | None => (Err telegram_error, [])
  | Some telegram_config =>
    if negb (flag_on telegram_config "enabled") then (Ok false, [])
    else
      let token := env "TELEGRAM_BOT_TOKEN" in
      let chat_id := env "TELEGRAM_CHAT_ID" in
      if negb (py_truthy token) || negb (py_truthy chat_id) then (Ok false, [])
      else
        let url := telegram_url (py_str_opt token) in
        match py_int (py_str_opt chat_id) with
        | None => (Ok false, [])
        | Some n =>
          let req := mkTgRequest url [("chat_id", YNum (inject_Z n)); ("text", YStr message);
                                      ("parse_mode", YStr "HTML")] in
          match post req with
          | TgResponse ok => (Ok ok, [req])
          | TgRaised (Timeout _) | TgRaised (RequestException _) => (Ok false, [req])
          | TgRaised (OtherException m) => (Err (OtherException m), [req])
          end
        end
  end.

(** [notify_error(error_message)]. *)
Definition notify_error (config : list (string * YVal)) (env : string -> option string)
  (post : TgRequest -> TgResult) (error_message : string) : PyRes unit * list TgRequest :=
  match config_section config "telegram" with
  | None => (Err telegram_error, [])
  | Some telegram_config =>
    if flag_on telegram_config "notify_on_error" then
      let '(r, reqs) := send_telegram config env post
                          (String.append "<b>Bot Error:</b> " error_message) in
      (match r with Ok _ => Ok tt | Err e => Err e end, reqs)
    else (Ok tt, [])
  end.

(** The P/L and the result word of [notify_position_closed]. *)
Definition position_closed_result (entry_price last_price : Q) : Q * string :=
  let pnl_pct := if Qlt_bool 0 entry_price
                 then ((last_price - entry_price) / entry_price) * 100 else 0 in
  let result :=
    if Qle_bool 1 last_price then "WON"
    else if Qle_bool last_price 0 then "LOST"
    else if Qle_bool 0 pnl_pct then "PROFIT"
    else "CLOSED" in
  (pnl_pct, result).

Lemma py_truthy_some o : py_truthy o = true -> exists s, o = Some s /\ s <> "".
Proof.
  destruct o as [s |]; simpl; [| discriminate].
  destruct (String.eqb_spec s ""); simpl; [discriminate | eauto].
Qed.

Local Ltac no_request H :=
  injection H as <- <-;
  split; [intros ? [] |];
  split; [split; [discriminate | intros (? & Hr & _); discriminate] |];
  intros ? ?; discriminate.

Lemma send_telegram_facts config env post message r reqs :
  send_telegram config env post message = (r, reqs) ->
  (forall req, In req reqs ->
     reqs = [req] /\
     (exists tc, config_section config "telegram" = Some tc /\ flag_on tc "enabled" = true) /\
     exists token chat n,
       env "TELEGRAM_BOT_TOKEN" = Some token /\ token <> "" /\
       env "TELEGRAM_CHAT_ID" = Some chat /\ py_int chat = Some n /\
       req = mkTgRequest (telegram_url token)
               [("chat_id", YNum (inject_Z n)); ("text", YStr message);
                ("parse_mode", YStr "HTML")]) /\
  (r = Ok true <-> exists req, reqs = [req] /\ post req = TgResponse true) /\
  (forall e, r = Err e ->
     (config_section config "telegram" = None /\ reqs = []) \/
     exists req m, reqs = [req] /\ post req = TgRaised (OtherException m) /\
                   e = OtherException m).
Proof.
  unfold send_telegram. intros H.
  destruct (config_section config "telegram") as [tc |] eqn:Ec.
  2: { injection H as <- <-. split; [intros ? [] |].
       split; [split; [discriminate | intros (? & Hr & _); discriminate] |].
       intros e _. left. auto. }
  destruct (flag_on tc "enabled") eqn:Ef; cbn [negb] in H; [| no_request H].
  destruct (py_truthy (env "TELEGRAM_BOT_TOKEN")) eqn:Ht; cbn [negb orb] in H;
    [| no_request H].
  destruct (py_truthy (env "TELEGRAM_CHAT_ID")) eqn:Hc; cbn [negb orb] in H;
    [| no_request H].
  destruct (py_truthy_some _ Ht) as (tok & Etok & Htok).
  destruct (py_truthy_some _ Hc) as (chat & Echat & Hchat).
  rewrite Etok, Echat in H. cbn [py_str_opt] in H.
  destruct (py_int chat) as [n |] eqn:Ep; [| no_request H].
  set (req := mkTgRequest (telegram_url tok)
                [("chat_id", YNum (inject_Z n)); ("text", YStr message);
                 ("parse_mode", YStr "HTML")]) in H.
  assert (Hin : forall req', In req' [req] ->
     [req] = [req'] /\
     (exists tc0, config_section config "telegram" = Some tc0 /\ flag_on tc0 "enabled" = true) /\
     exists token chat0 n0,
       env "TELEGRAM_BOT_TOKEN" = Some token /\ token <> "" /\
       env "TELEGRAM_CHAT_ID" = Some chat0 /\ py_int chat0 = Some n0 /\
       req' = mkTgRequest (telegram_url token)
                [("chat_id", YNum (inject_Z n0)); ("text", YStr message);
                 ("parse_mode", YStr "HTML")]).
  { intros req' [<- | []]. split; [reflexivity |]. split; [exists tc; auto |].
    exists tok, chat, n. auto 8. }
  rewrite Ec in Hin.
  destruct (post req) as [ok | [m | m | m]] eqn:Epost; injection H as <- <-;
    (split; [exact Hin |]).
  - split; [split |].
    + intros Hok. injection Hok as ->. exists req. auto.
    + intros (req' & Hr & Hp). injection Hr as <-. rewrite Epost in Hp.
      injection Hp as ->. reflexivity.
    + intros e He. discriminate.
  - split; [split; [discriminate |] | intros e He; discriminate].
    intros (req' & Hr & Hp). injection Hr as <-. rewrite Epost in Hp. discriminate.
  - split; [split; [discriminate |] | intros e He; discriminate].
    intros (req' & Hr & Hp). injection Hr as <-. rewrite Epost in Hp. discriminate.
  - split; [split; [discriminate |] |].
    + intros (req' & Hr & Hp). injection Hr as <-. rewrite Epost in Hp. discriminate.
    + intros e He. injection He as <-. right. exists req, m. auto.
Qed.

(** X9: [send_telegram] posts at most one request, and only when the
    telegram section enables it, both variables are set and the chat id
    reads as an int: the request then goes to the bot token's URL and
    carries that int, the message and the HTML parse mode. It returns
    [True] exactly when that request got an [ok] response, and raises
    only on a telegram section that is not a mapping or on an exception
    of the post that it does not catch. *)
Theorem send_telegram_spec config env post message r reqs :
  send_telegram config env post message = (r, reqs) ->
  (forall req, In req reqs ->
     reqs = [req] /\
     (exists tc, config_section config "telegram" = Some tc /\ flag_on tc "enabled" = true) /\
     exists token chat n,
       env "TELEGRAM_BOT_TOKEN" = Some token /\ token <> "" /\
       env "TELEGRAM_CHAT_ID" = Some chat /\ py_int chat = Some n /\
       req = mkTgRequest (telegram_url token)
               [("chat_id", YNum (inject_Z n)); ("text", YStr message);
                ("parse_mode", YStr "HTML")]) /\
  (r = Ok true <-> exists req, reqs = [req] /\ post req = TgResponse true) /\
  (forall e, r = Err e ->
     (config_section config "telegram" = None /\ reqs = []) \/
     exists req m, reqs = [req] /\ post req = TgRaised (OtherException m) /\
                   e = OtherException m).
Proof. exact (send_telegram_facts config env post message r reqs). Qed.

Definition telegram_env (k : string) : option string :=
  if String.eqb k "TELEGRAM_BOT_TOKEN" then Some "123:ABC"
  else if String.eqb k "TELEGRAM_CHAT_ID" then Some " -100123 " else None.

Definition ok_post (_ : TgRequest) : TgResult := TgResponse true.

Definition telegram_sent : PyRes bool * list TgRequest :=
  send_telegram [] telegram_env ok_post "hello".

Lemma send_telegram_spec_witness :
  fst telegram_sent = Ok true /\
  exists req, snd telegram_sent = [req] /\ tg_url req = telegram_url "123:ABC".
Proof.
  destruct (send_telegram_spec [] telegram_env ok_post "hello"
              (fst telegram_sent) (snd telegram_sent) eq_refl) as [Hin [Hok _]].
  split; [vm_compute; reflexivity |].
  destruct (proj1 Hok eq_refl) as [req [Hreq _]]. exists req. split; [exact Hreq |].
  destruct (Hin req ltac:(rewrite Hreq; left; reflexivity))
    as (_ & _ & tok & chat & n & Etok & _ & _ & _ & ->).
  vm_compute in Etok. injection Etok as <-. reflexivity.
Defined.

(** X10: [notify_error] posts only when both [telegram.enabled] and
    [telegram.notify_on_error] hold (each defaults to true), and then one
    message, the error text behind its [<b>Bot Error:</b>] prefix. *)
Theorem notify_error_gating config env post error_message r reqs :
  notify_error config env post error_message = (r, reqs) -> reqs <> [] ->
  exists tc req, config_section config "telegram" = Some tc /\
    flag_on tc "enabled" = true /\ flag_on tc "notify_on_error" = true /\
    reqs = [req] /\
    dict_get (tg_payload req) "text" =
      Some (YStr (String.append "<b>Bot Error:</b> " error_message)).
Proof.
  unfold notify_error. intros H Hne.
  destruct (config_section config "telegram") as [tc |] eqn:Ec;
    [| injection H as _ <-; contradiction].
  destruct (flag_on tc "notify_on_error") eqn:Efl; [| injection H as _ <-; contradiction].
  destruct (send_telegram config env post
              (String.append "<b>Bot Error:</b> " error_message)) as [r0 reqs0] eqn:Es.
  injection H as _ <-. destruct reqs0 as [| req rest]; [contradiction |].
  destruct (send_telegram_facts _ _ _ _ _ _ Es) as [Hin _].
  destruct (Hin req (or_introl eq_refl))
    as (Hreq & (tc' & Etc & Hen) & tok & chat & n & _ & _ & _ & _ & ->).
  rewrite Ec in Etc. injection Etc as <-.
  exists tc. eexists. split; [reflexivity |]. split; [exact Hen |]. split; [exact Efl |].
  split; [exact Hreq | reflexivity].
Qed.

Definition error_config : list (string * YVal) :=
  [("telegram", YDict [("notify_on_error", YBool true)])].

Lemma notify_error_gating_witness :
  exists tc req, config_section error_config "telegram" = Some tc /\
    flag_on tc "enabled" = true /\ flag_on tc "notify_on_error" = true /\
    snd (notify_error error_config telegram_env ok_post "boom") = [req] /\
    dict_get (tg_payload req) "text" = Some (YStr "<b>Bot Error:</b> boom").
Proof.
  exact (notify_error_gating error_config telegram_env ok_post "boom"
           (fst (notify_error error_config telegram_env ok_post "boom"))
           (snd (notify_error error_config telegram_env ok_post "boom"))
           eq_refl ltac:(vm_compute; discriminate)).
Defined.

Lemma pnl_sign e l : 0 < e -> Qle_bool 0 (((l - e) / e) * 100) = Qle_bool e l.
Proof.
  intros He. destruct (Qlt_le_dec (l - e) 0) as [Hn | Hp].
  - assert (H1 : (l - e) / e < 0) by (apply Qlt_shift_div_r; [exact He | rewrite Qmult_0_l; exact Hn]).
    assert (H2 : (l - e) / e * 100 < 0).
    { setoid_replace 0 with (0 * 100) by reflexivity. apply Qmult_lt_r; [reflexivity | exact H1]. }
    destruct (Qle_bool 0 _) eqn:E1; [apply Qle_bool_iff in E1; exfalso; apply (Qlt_not_le _ _ H2 E1) |].
    destruct (Qle_bool e l) eqn:E2; [| reflexivity].
    apply Qle_bool_iff, Qle_minus_iff in E2. exfalso. exact (Qlt_not_le _ _ Hn E2).
  - assert (H1 : 0 <= (l - e) / e) by (apply Qle_shift_div_l; [exact He | rewrite Qmult_0_l; exact Hp]).
    assert (H2 : 0 <= (l - e) / e * 100) by (apply Qmult_le_0_compat; [exact H1 | discriminate]).
    apply Qle_bool_iff in H2. rewrite H2. symmetry. apply Qle_bool_iff.
    apply Qle_minus_iff. exact Hp.
Qed.

(** X11: a closed position is reported WON when its last price is at
    least 1 and LOST when it is at most 0; in between it is PROFIT exactly
    when the last price is at least the entry price or the entry price is
    not positive (the P/L is then 0). For a positive entry the reported P/L
    is the opposite of the drop [calculate_stop_loss_trigger] measures. *)
Theorem position_closed_classification entry last stop_loss_pct :
  (1 <= last -> snd (position_closed_result entry last) = "WON") /\
  (last <= 0 -> snd (position_closed_result entry last) = "LOST") /\
  (0 < last -> last < 1 ->
   (snd (position_closed_result entry last) = "PROFIT" <-> entry <= 0 \/ entry <= last) /\
   (snd (position_closed_result entry last) = "CLOSED" <-> 0 < entry /\ last < entry)) /\
  (0 < entry ->
   fst (position_closed_result entry last) ==
   - snd (calculate_stop_loss_trigger entry last stop_loss_pct)).
Proof.
  assert (Hf : forall a b, a < b -> Qle_bool b a = false).
  { intros a b H. destruct (Qle_bool b a) eqn:E; [| reflexivity].
    apply Qle_bool_iff in E. exfalso. exact (Qlt_not_le _ _ H E). }
  assert (Ht : forall a b, a <= b -> Qle_bool a b = true) by (intros; apply Qle_bool_iff; assumption).
  unfold position_closed_result, Qlt_bool. cbn -[Qle_bool Qmult Qdiv Qminus].
  split; [intros H; rewrite (Ht _ _ H); reflexivity |].
  split.
  { intros H. rewrite (Hf last 1) by (eapply Qle_lt_trans; [exact H | reflexivity]).
    rewrite (Ht _ _ H). reflexivity. }
  split.
  - intros H0 H1. rewrite (Hf _ _ H1), (Hf _ _ H0).
    destruct (Qlt_le_dec 0 entry) as [He | He].
    + rewrite (Hf _ _ He). cbn [negb]. rewrite (pnl_sign entry last He).
      destruct (Qle_bool entry last) eqn:E.
      * apply Qle_bool_iff in E. split; split.
        -- intros _. right. exact E.
        -- intros _. reflexivity.
        -- discriminate.
        -- intros [_ Hlt]. exfalso. exact (Qlt_not_le _ _ Hlt E).
      * split; split.
        -- discriminate.
        -- intros [Hle | Hle]; [exfalso; exact (Qlt_not_le _ _ He Hle) |].
           rewrite (Ht _ _ Hle) in E. discriminate.
        -- intros _. split; [exact He |]. apply Qnot_le_lt. intros Hle.
           rewrite (Ht _ _ Hle) in E. discriminate.
        -- intros _. reflexivity.
    + rewrite (Ht _ _ He). cbn [negb]. rewrite (Ht 0 0) by apply Qle_refl.
      split; split.
      * intros _. left. exact He.
      * intros _. reflexivity.
      * discriminate.
      * intros [Hlt _]. exfalso. exact (Qlt_not_le _ _ Hlt He).
  - intros He. rewrite (Hf _ _ He). cbn [negb].
    unfold calculate_stop_loss_trigger. rewrite (Hf _ _ He). simpl snd.
    field. intros Hz. rewrite Hz in He. exact (Qlt_irrefl _ He).
Qed.

(* ------------------------------------------------------------------ *)
(** ** bot/config.py: [load_config] *)

Definition default_config : list (string * YVal) :=
  [("stop_loss", YDict [("percentage", YNum 10); ("min_position_size", YNum 1)]);
   ("monitoring", YDict [("position_poll_interval_ms", YNum 30000);
                         ("price_poll_interval_ms", YNum 5000)]);
   ("telegram", YDict [("enabled", YBool true); ("notify_on_start", YBool true);
                       ("notify_on_stop_loss", YBool true); ("notify_on_error", YBool true)]);
   ("logging", YDict [("level", YStr "INFO"); ("file", YStr "logs/bot.log");
                      ("max_size_mb", YNum 10); ("backup_count", YNum 5)])].

(** [config["monitoring"][key] = int(value)]: [int] is evaluated first
    ([ValueError]), then the section is indexed ([TypeError] when it is not
    a mapping). *)
Definition override_monitoring (config : list (string * YVal)) (key value : string)
  : PyRes (list (string * YVal)) :=
  match py_int value with
  | None => Err (OtherException (String.append "invalid literal for int() with base 10: " value))
  | Some n =>
    match dict_get config "monitoring" with
    | Some (YDict m) => Ok (dict_set config "monitoring" (YDict (dict_set m key (YNum (inject_Z n)))))
    | _ => Err (OtherException "'monitoring' object does not support item assignment")
    end
  end.

Definition env_override (env : string -> option string) (var key : string)
  (config : list (string * YVal)) : PyRes (list (string * YVal)) :=
  if py_truthy (env var) then override_monitoring config key (py_str_opt (env var))
  else Ok config.

(** [load_config()]: [cache] is [_config_cache] (returned updated),
    [file] the outcome of reading and [yaml.safe_load]ing [config.yaml]
    ([None] when the file does not exist). *)
Definition load_config (cache : list (string * YVal)) (file : option (PyRes YVal))
  (env : string -> option string) : PyRes (list (string * YVal)) * list (string * YVal) :=
  if negb (Nat.eqb (List.length cache) 0) then (Ok cache, cache)
  else
    let loaded :=
      match file with
      | None => Ok default_config
      | Some (Err e) => Err e
      | Some (Ok y) =>
        match (if yval_truthy y then y else YDict []) with
        | YDict yaml_config => Ok (deep_merge default_config yaml_config)
        | _ => Err (OtherException "object has no attribute 'items'")
        end
      end in
    match loaded with
    | Err e => (Err e, cache)
    | Ok config =>
      match env_override env "POSITION_POLL_INTERVAL_MS" "position_poll_interval_ms" config with
      | Err e => (Err e, cache)
      | Ok config =>
        match env_override env "PRICE_POLL_INTERVAL_MS" "price_poll_interval_ms" config with
        | Err e => (Err e, cache)
        | Ok config => (Ok config, config)
        end
      end
    end.

Lemma dict_set_length {A} (d : list (string * A)) k v :
  (List.length d <= List.length (dict_set d k v))%nat.
Proof.
  induction d as [| [k' v'] d IH]; simpl; [lia |].
  destruct (String.eqb k k'); simpl; lia.
Qed.

Lemma deep_merge_length base override :
  (List.length base <= List.length (deep_merge base override))%nat.
Proof.
  revert base. induction override as [| [k v] rest IH]; intros base; simpl; [lia |].
  etransitivity; [apply dict_set_length | apply IH].
Qed.

Lemma env_override_length env var key config config' :
  env_override env var key config = Ok config' ->
  (List.length config <= List.length config')%nat.
Proof.
  unfold env_override, override_monitoring. intros H.
  destruct (py_truthy (env var)); [| injection H as <-; lia].
  destruct (py_int _); [| discriminate].
  destruct (dict_get config "monitoring") as [[] |]; try discriminate.
  injection H as <-. apply dict_set_length.
Qed.

(** X12: once [load_config] has returned a config, it is cached: every
    later call returns that same config, whatever the file and the
    environment then hold. *)
Theorem load_config_cached cache file env config cache' :
  load_config cache file env = (Ok config, cache') ->
  cache' = config /\
  forall file' env', load_config cache' file' env' = (Ok config, config).
Proof.
  intros H.
  assert (Hlen : cache' = config /\ List.length config <> 0%nat).
  { unfold load_config in H.
    destruct (Nat.eqb_spec (List.length cache) 0) as [H0 | H0]; cbn [negb] in H;
      [| injection H as <- <-; auto].
    assert (Hdef : forall c, (4 <= List.length c)%nat ->
              match env_override env "POSITION_POLL_INTERVAL_MS" "position_poll_interval_ms" c with
              | Ok c1 => match env_override env "PRICE_POLL_INTERVAL_MS" "price_poll_interval_ms" c1 with
                         | Ok c2 => (Ok c2, c2) | Err e => (Err e, cache) end
              | Err e => (Err e, cache) end = (Ok config, cache') ->
              cache' = config /\ List.length config <> 0%nat).
    { intros c Hc Hm.
      destruct (env_override env _ _ c) as [c1 |] eqn:E1; [| discriminate].
      destruct (env_override env _ _ c1) as [c2 |] eqn:E2; [| discriminate].
      injection Hm as <- <-. split; [reflexivity |].
      apply env_override_length in E1. apply env_override_length in E2. lia. }
    destruct file as [[y | e] |].
    - destruct (yval_truthy y); [destruct y | ]; try discriminate;
        apply (Hdef _ (deep_merge_length default_config _) H).
    - discriminate.
    - exact (Hdef default_config (le_n 4) H). }
  destruct Hlen as [-> Hne]. split; [reflexivity |].
  intros file' env'. unfold load_config.
  destruct (Nat.eqb_spec (List.length config) 0); [contradiction | reflexivity].
Qed.

Definition yaml_file : option (PyRes YVal) :=
  Some (Ok (YDict [("stop_loss", YDict [("percentage", YNum 15)])])).

Definition yaml_loaded : list (string * YVal) :=
  snd (load_config [] yaml_file (fun _ => None)).

Lemma load_config_cached_witness :
  load_config yaml_loaded None (fun _ => Some "1") = (Ok yaml_loaded, yaml_loaded).
Proof.
  exact (proj2 (load_config_cached [] yaml_file (fun _ => None) yaml_loaded yaml_loaded
                  eq_refl) None (fun _ => Some "1")).
Defined.

Lemma env_override_sets env var key config config' s n :
  env_override env var key config = Ok config' ->
  env var = Some s -> py_int s = Some n ->
  exists m, dict_get config' "monitoring" = Some (YDict m) /\
            dict_get m key = Some (YNum (inject_Z n)).
Proof.
  unfold env_override, override_monitoring. intros H Hs Hn. rewrite Hs in H.
  destruct s as [| c s']; [discriminate |]. cbn [py_truthy py_str_opt String.eqb negb] in H.
  rewrite Hn in H.
  destruct (dict_get config "monitoring") as [[] |]; try discriminate.
  injection H as <-. eexists. rewrite dict_get_set_eq. split; [reflexivity |].
  apply dict_get_set_eq.
Qed.

Lemma env_override_keeps env var key key' config config' v :
  env_override env var key config = Ok config' -> key' <> key ->
  forall m, dict_get config "monitoring" = Some (YDict m) -> dict_get m key' = Some v ->
  exists m', dict_get config' "monitoring" = Some (YDict m') /\ dict_get m' key' = Some v.
Proof.
  unfold env_override, override_monitoring. intros H Hne m Hm Hv.
  destruct (py_truthy (env var)); [| injection H as <-; eauto].
  destruct (py_int _); [| discriminate]. rewrite Hm in H.
  injection H as <-. eexists. rewrite dict_get_set_eq. split; [reflexivity |].
  rewrite dict_get_set_neq by exact Hne. exact Hv.
Qed.

Lemma env_overrides_chain env (loaded : PyRes (list (string * YVal))) c2 cache' :
  match loaded with
  | Err e => (Err e, [])
  | Ok c =>
    match env_override env "POSITION_POLL_INTERVAL_MS" "position_poll_interval_ms" c with
    | Err e => (Err e, [])
    | Ok c1 =>
      match env_override env "PRICE_POLL_INTERVAL_MS" "price_poll_interval_ms" c1 with
      | Err e => (Err e, [])
      | Ok c2 => (Ok c2, c2)
      end
    end
  end = (Ok c2, cache') ->
  (forall s n, env "POSITION_POLL_INTERVAL_MS" = Some s -> py_int s = Some n ->
     exists m, dict_get c2 "monitoring" = Some (YDict m) /\
               dict_get m "position_poll_interval_ms" = Some (YNum (inject_Z n))) /\
  (forall s n, env "PRICE_POLL_INTERVAL_MS" = Some s -> py_int s = Some n ->
     exists m, dict_get c2 "monitoring" = Some (YDict m) /\
               dict_get m "price_poll_interval_ms" = Some (YNum (inject_Z n))).
Proof.
  intros H. destruct loaded as [c |]; [| discriminate].
  destruct (env_override env _ _ c) as [c1 |] eqn:E1; [| discriminate].
  destruct (env_override env _ _ c1) as [c2' |] eqn:E2; [| discriminate].
  injection H as <- _. split.
  - intros s n Hs Hn. destruct (env_override_sets _ _ _ _ _ _ _ E1 Hs Hn) as (m & Hm & Hv).
    exact (env_override_keeps env "PRICE_POLL_INTERVAL_MS" "price_poll_interval_ms"
             "position_poll_interval_ms" c1 c2' _ E2 ltac:(discriminate) m Hm Hv).
  - intros s n Hs Hn. exact (env_override_sets _ _ _ _ _ _ _ E2 Hs Hn).
Qed.

(** X13: a poll interval set in the environment ([POSITION_POLL_INTERVAL_MS],
    [PRICE_POLL_INTERVAL_MS]) overrides both the default and the YAML file:
    a fresh [load_config] that returns has the variable's int at that key
    of its [monitoring] section. *)
Theorem load_config_env_override file env config cache' :
  load_config [] file env = (Ok config, cache') ->
  (forall s n, env "POSITION_POLL_INTERVAL_MS" = Some s -> py_int s = Some n ->
     exists m, dict_get config "monitoring" = Some (YDict m) /\
               dict_get m "position_poll_interval_ms" = Some (YNum (inject_Z n))) /\
  (forall s n, env "PRICE_POLL_INTERVAL_MS" = Some s -> py_int s = Some n ->
     exists m, dict_get config "monitoring" = Some (YDict m) /\
               dict_get m "price_poll_interval_ms" = Some (YNum (inject_Z n))).
Proof.
  intros H. exact (env_overrides_chain _ _ _ _ H).
Qed.

Definition interval_env (k : string) : option string :=
  if String.eqb k "POSITION_POLL_INTERVAL_MS" then Some "60000" else None.

Definition yaml_intervals : option (PyRes YVal) :=
  Some (Ok (YDict [("monitoring", YDict [("position_poll_interval_ms", YNum 1000)])])).

Definition intervals_loaded : list (string * YVal) :=
  snd (load_config [] yaml_intervals interval_env).

Lemma load_config_env_override_witness :
  exists m, dict_get intervals_loaded "monitoring" = Some (YDict m) /\
            dict_get m "position_poll_interval_ms" = Some (YNum (inject_Z 60000)).
Proof.
  exact (proj1 (load_config_env_override yaml_intervals interval_env intervals_loaded
                  intervals_loaded eq_refl) "60000" 60000%Z eq_refl eq_refl).
Defined.

(* ------------------------------------------------------------------ *)
(** ** bot/trading.py: further properties of [close_position] *)

Lemma Qle_bool_pos x : 0 < x -> Qle_bool x 0 = false.
Proof.
  intros Hx. destruct (Qle_bool x 0) eqn:E; [| reflexivity].
  apply Qle_bool_iff in E. exfalso. exact (Qlt_not_le _ _ Hx E).
Qed.

(** X14: once the size rounds to a positive amount, the network traffic
    of [close_position] is, for each signature type it submits with, a
    fresh credential derivation followed by one order submission, every
    submission for the same token and the same rounded amount; the only
    other traffic is a last credential request that failed, after which
    the call raises that request's exception. *)
Theorem close_position_calls cs venue hist token_id sz signature_type :
  0 < round2 sz ->
  let '(res, calls) := close_position cs venue hist token_id sz signature_type in
  exists tail,
    calls = flat_map (fun s => [DeriveCreds s; SubmitOrder s token_id (round2 sz)])
              (submitted_sigs calls) ++ tail /\
    (tail = [] \/
     exists h s e, tail = [DeriveCreds s] /\ res = Raised e /\ cs_derive cs h s = Some e).
Proof.
  intros Hpos. pose proof (Qle_bool_pos _ Hpos) as Hsz.
  remember (sig_rank signature_type) as n eqn:Hn.
  revert hist signature_type Hn.
  induction n as [n IH] using lt_wf_ind.
  intros hist signature_type Hn.
  rewrite close_position_eqn.
  pose proof (get_clob_client_cases cs hist signature_type) as Hcases.
  destruct (get_clob_client cs hist signature_type) as [[e |] client].
  { destruct Hcases as [-> | [-> Hd]].
    - exists []. split; [reflexivity | left; reflexivity].
    - exists [DeriveCreds signature_type]. split; [reflexivity |].
      right. exists hist, signature_type, e. auto. }
  subst client. cbv zeta. rewrite Hsz.
  destruct (venue hist signature_type token_id (round2 sz)) as [r | e];
    [exists []; split; [reflexivity | left; reflexivity] |].
  destruct (is_no_orderbook (exn_msg e));
    [exists []; split; [reflexivity | left; reflexivity] |].
  destruct (is_invalid_signature (exn_msg e)).
  - destruct (sig_fallback signature_type) as [s' |] eqn:Hf;
      [| exists []; split; [reflexivity | left; reflexivity]].
    specialize (IH (sig_rank s') ltac:(subst n; apply sig_fallback_rank; exact Hf)
                  (hist ++ [signature_type]) s' eq_refl).
    destruct (close_position cs venue (hist ++ [signature_type]) token_id sz s')
      as [res calls] eqn:Hrec.
    destruct IH as [tail [Hcalls Htail]].
    exists tail. split; [| exact Htail].
    simpl. rewrite Hcalls at 1. reflexivity.
  - destruct (is_auth_error (exn_msg e));
      exists []; split; try reflexivity; left; reflexivity.
Qed.

(** A client whose credential request succeeds for the first signature
    type tried and times out for every fallback. *)
Definition derive_failing_setup : ClientSetup :=
  mkClientSetup configured_env (fun _ _ _ => None)
    (fun hist _ => match hist with
                   | [] => None
                   | _ => Some (RequestException "Read timed out. (read timeout=10)")
                   end).

Lemma close_position_calls_witness :
  0 < round2 10 /\
  exists tail,
    snd (close_position derive_failing_setup signature_rejecting_venue [] "tok" 10 1) =
    flat_map (fun s => [DeriveCreds s; SubmitOrder s "tok" (round2 10)])
      (submitted_sigs (snd (close_position derive_failing_setup signature_rejecting_venue
                              [] "tok" 10 1))) ++ tail.
Proof.
  assert (Hpos : 0 < round2 10) by reflexivity.
  split; [exact Hpos |].
  pose proof (close_position_calls derive_failing_setup signature_rejecting_venue [] "tok" 10 1
                Hpos) as H.
  destruct (close_position derive_failing_setup signature_rejecting_venue [] "tok" 10 1)
    as [res calls].
  destruct H as [tail [H _]]. exists tail. exact H.
Defined.


Definition raising_venue : Venue :=
  fun _ _ _ _ => Raised (OtherException "not enough balance / allowance").


(** X20: with the wallet key or the funder address unset or empty,
    [close_position] raises the [ValueError] of [get_env] whatever the size
    and the venue, before any network traffic: no credential request and
    no order. *)
Theorem close_position_unconfigured cs venue hist token_id sz signature_type :
  py_truthy (cs_env cs "POLYMARKET_WALLET_PRIVATE_KEY") = false \/
  py_truthy (cs_env cs "POLYMARKET_FUNDER_ADDRESS") = false ->
  exists key, close_position cs venue hist token_id sz signature_type =
    (Raised (OtherException (String.append "Required environment variable "
                               (String.append key " is not set"))), []) /\
    (key = "POLYMARKET_WALLET_PRIVATE_KEY" \/ key = "POLYMARKET_FUNDER_ADDRESS").
Proof.
  intros H. rewrite close_position_eqn. unfold get_clob_client, get_env.
  destruct (py_truthy (cs_env cs "POLYMARKET_WALLET_PRIVATE_KEY")) eqn:Hk; cbn [andb negb].
  - destruct H as [H | H]; [discriminate |]. rewrite H. cbn [andb negb].
    eexists. split; [reflexivity | right; reflexivity].
  - eexists. split; [reflexivity | left; reflexivity].
Qed.

Lemma close_position_unconfigured_witness :
  exists key, close_position unconfigured_setup raising_venue [] "tok" 10 2 =
    (Raised (OtherException (String.append "Required environment variable "
                               (String.append key " is not set"))), []) /\
    (key = "POLYMARKET_WALLET_PRIVATE_KEY" \/ key = "POLYMARKET_FUNDER_ADDRESS").
Proof.
  apply (close_position_unconfigured unconfigured_setup raising_venue [] "tok" 10 2).
  left. reflexivity.
Defined.

Lemma round_half_even_small x : x < 1 # 2 -> (round_half_even x <= 0)%Z.
Proof.
  intros Hx. unfold round_half_even.
  pose proof (Qfloor_le x) as Hle. pose proof (Qlt_floor x) as Hlt.
  set (f := Qfloor x) in *.
  assert (Hf : (f <= 0)%Z).
  { apply Z.nlt_ge. intros Hf. assert (H1 : inject_Z 1 <= inject_Z f) by (rewrite <- Zle_Qle; lia).
    apply (Qlt_not_le _ _ Hx). eapply Qle_trans; [| exact Hle].
    eapply Qle_trans; [| exact H1]. discriminate. }
  destruct (Z.eq_dec f 0) as [H0 | H0].
  - assert (Hfr : x - inject_Z f < 1 # 2).
    { rewrite H0. setoid_replace (x - inject_Z 0) with x by (simpl; ring). exact Hx. }
    unfold Qlt_bool. destruct (Qle_bool (1 # 2) (x - inject_Z f)) eqn:E.
    + apply Qle_bool_iff in E. exfalso. exact (Qlt_not_le _ _ Hfr E).
    + simpl. lia.
  - destruct (Qlt_bool _ _); [lia |]. destruct (Qlt_bool _ _); [lia |].
    destruct (Z.even f); lia.
Qed.

Lemma round_half_even_large x : 1 # 2 < x -> (1 <= round_half_even x)%Z.
Proof.
  intros Hx. unfold round_half_even.
  pose proof (Qfloor_le x) as Hle. pose proof (Qlt_floor x) as Hlt.
  set (f := Qfloor x) in *.
  assert (Hf : (0 <= f)%Z).
  { apply Z.nlt_ge. intros Hf. assert (H1 : inject_Z (f + 1) <= 0).
    { change 0 with (inject_Z 0). rewrite <- Zle_Qle. lia. }
    apply (Qlt_not_le _ _ Hx). apply Qlt_le_weak. eapply Qlt_le_trans; [exact Hlt |].
    eapply Qle_trans; [exact H1 | discriminate]. }
  destruct (Z.eq_dec f 0) as [H0 | H0].
  - assert (Hfr : 1 # 2 < x - inject_Z f).
    { rewrite H0. setoid_replace (x - inject_Z 0) with x by (simpl; ring). exact Hx. }
    assert (E1 : Qle_bool (1 # 2) (x - inject_Z f) = true)
      by (apply Qle_bool_iff; apply Qlt_le_weak; exact Hfr).
    assert (E2 : Qle_bool (x - inject_Z f) (1 # 2) = false).
    { destruct (Qle_bool (x - inject_Z f) (1 # 2)) eqn:E; [| reflexivity].
      apply Qle_bool_iff in E. exfalso. exact (Qlt_not_le _ _ Hfr E). }
    unfold Qlt_bool. rewrite E1, E2. simpl. lia.
  - destruct (Qlt_bool _ _); [lia |]. destruct (Qlt_bool _ _); [lia |].
    destruct (Z.even f); lia.
Qed.

(** X16: the size check of [close_position] sits at half a cent: a size
    below 0.005 submits no order and returns "Size too small" once the
    client is created (raising whatever its creation raised); a size above
    0.005 is rounded to a positive amount and, once the client is created,
    submitted as the first order. *)
Theorem close_position_size_threshold cs venue hist token_id sz signature_type :
  (sz < 1 # 200 ->
   close_position cs venue hist token_id sz signature_type =
   match get_clob_client cs hist signature_type with
   | (Some e, client) => (Raised e, client)
   | (None, client) => (Returned (failure "Size too small"), client)
   end) /\
  (1 # 200 < sz ->
   0 < round2 sz /\
   (fst (get_clob_client cs hist signature_type) = None ->
    exists calls, snd (close_position cs venue hist token_id sz signature_type) =
                  DeriveCreds signature_type :: SubmitOrder signature_type token_id (round2 sz)
                  :: calls)).
Proof.
  assert (Hdiv : forall z : Z, (inject_Z z / 100 <= 0 <-> (z <= 0)%Z)).
  { intros z. split; intros H.
    - apply Z.nlt_ge. intros Hz. apply (Qle_not_lt _ _ H).
      apply Qlt_shift_div_l; [reflexivity |]. rewrite Qmult_0_l.
      change 0 with (inject_Z 0). rewrite <- Zlt_Qlt. exact Hz.
    - apply Qle_shift_div_r; [reflexivity |]. rewrite Qmult_0_l.
      change 0 with (inject_Z 0). rewrite <- Zle_Qle. exact H. }
  split.
  - intros Hsz.
    assert (Hx : sz * 100 < 1 # 2).
    { setoid_replace (1 # 2) with ((1 # 200) * 100) by reflexivity.
      apply Qmult_lt_r; [reflexivity | exact Hsz]. }
    assert (E : Qle_bool (round2 sz) 0 = true).
    { apply Qle_bool_iff. unfold round2. apply Hdiv. apply round_half_even_small. exact Hx. }
    rewrite close_position_eqn.
    destruct (get_clob_client cs hist signature_type) as [[e |] client]; [reflexivity |].
    cbv zeta. rewrite E. reflexivity.
  - intros Hsz.
    assert (Hx : 1 # 2 < sz * 100).
    { setoid_replace (1 # 2) with ((1 # 200) * 100) by reflexivity.
      apply Qmult_lt_r; [reflexivity | exact Hsz]. }
    assert (Hpos : 0 < round2 sz).
    { unfold round2. apply Qnot_le_lt. intros H.
      apply (proj1 (Hdiv (round_half_even (sz * 100)))) in H.
      pose proof (round_half_even_large _ Hx). lia. }
    split; [exact Hpos |].
    intros Hc. rewrite close_position_eqn.
    pose proof (get_clob_client_cases cs hist signature_type) as Hcases.
    destruct (get_clob_client cs hist signature_type) as [[e0 |] client];
      [discriminate |]. subst client.
    cbv zeta. rewrite (Qle_bool_pos _ Hpos).
    destruct (venue hist signature_type token_id (round2 sz)) as [r | e]; [eexists; reflexivity |].
    destruct (is_no_orderbook (exn_msg e)); [eexists; reflexivity |].
    destruct (is_invalid_signature (exn_msg e)).
    + destruct (sig_fallback signature_type) as [s' |]; [| eexists; reflexivity].
      destruct (close_position cs venue (hist ++ [signature_type]) token_id sz s').
      eexists; reflexivity.
    + destruct (is_auth_error (exn_msg e)); eexists; reflexivity.
Qed.

(* ------------------------------------------------------------------ *)
(** ** bot/monitor.py: further properties of the loop's effects *)

Lemma Qlt_bool_true x y : Qlt_bool x y = true -> x < y.
Proof.
  unfold Qlt_bool. intros H. apply Qnot_le_lt. intros Hle.
  apply Qle_bool_iff in Hle. rewrite Hle in H. discriminate.
Qed.

Lemma first_active_positive ps p :
  first_active ps = Some p -> 0 < curPrice p /\ 0 < avgPrice p.
Proof.
  induction ps as [| q ps IH]; simpl; [discriminate |].
  destruct (Qlt_bool 0 (curPrice q)) eqn:Ec, (Qlt_bool 0 (avgPrice q)) eqn:Ea;
    simpl; try exact IH.
  intros H. injection H as <-. split; apply Qlt_bool_true; assumption.
Qed.

Lemma handle_exn_close_calls st effs e tok sz :
  In (CallClosePosition tok sz) (snd (handle_exn st effs e)) ->
  In (CallClosePosition tok sz) effs.
Proof.
  unfold handle_exn. destruct e; cbn [snd]; rewrite ?in_app_iff; simpl;
    split_matches; simpl; intuition discriminate.
Qed.

Lemma handle_exn_close_count st effs e :
  count is_close_call (snd (handle_exn st effs e)) = count is_close_call effs.
Proof.
  unfold handle_exn. destruct e; cbn [snd]; rewrite ?count_app; split_matches;
    unfold count; simpl; lia.
Qed.

Lemma on_active_close_call pct ex st p tok sz :
  In (CallClosePosition tok sz) (snd (on_active pct ex st p)) ->
  tok = asset p /\ sz = size p /\
  fst (calculate_stop_loss_trigger (avgPrice p) (curPrice p) pct) = true.
Proof.
  unfold on_active.
  destruct (calculate_stop_loss_trigger (avgPrice p) (curPrice p) pct) as [[|] drop];
    cbn [fst].
  - destruct (ex (asset p) (size p)) as [r | e].
    + cbn [snd]. rewrite !in_app_iff.
      destruct (negb _), (reported_success r); simpl; intuition congruence.
    + intros H. apply handle_exn_close_calls in H. rewrite in_app_iff in H.
      destruct (negb _); simpl in H; intuition congruence.
  - cbn [snd]. rewrite in_app_iff. destruct (negb _); simpl; intuition discriminate.
Qed.

(** X18: one cycle of the loop calls [close_position] at most once, and
    only for the first snapshot entry with positive prices, with its asset
    and size, when the stop loss of that entry fires; a failed fetch, an
    empty snapshot or a snapshot with no valid entry never calls it. *)
Theorem monitor_cycle_close_call pct ex st f :
  let '(st', effs) := monitor_cycle pct ex st f in
  (count is_close_call effs <= 1)%nat /\
  forall tok sz, In (CallClosePosition tok sz) effs ->
    exists ps p, f = Fetched ps /\ first_active ps = Some p /\
      tok = asset p /\ sz = size p /\
      fst (calculate_stop_loss_trigger (avgPrice p) (curPrice p) pct) = true.
Proof.
  destruct f as [ps | e].
  2: { cbn [monitor_cycle].
       pose proof (handle_exn_close_count st [] e) as Hc.
       pose proof (handle_exn_close_calls st [] e) as Hi.
       destruct (handle_exn st [] e) as [st' effs]. cbn [snd] in Hc, Hi.
       split; [rewrite Hc; unfold count; simpl; lia |].
       intros tok sz H. destruct (Hi tok sz H). }
  destruct (first_active ps) as [p |] eqn:Hp.
  - rewrite (monitor_cycle_active pct ex st ps p Hp).
    pose proof (on_active_close_count pct ex st p) as Hc.
    pose proof (on_active_close_call pct ex st p) as Hi.
    destruct (on_active pct ex st p) as [st' effs]. cbn [snd] in Hc, Hi.
    split.
    + rewrite Hc. destruct (fst _); lia.
    + intros tok sz H. destruct (Hi tok sz H) as [? [? ?]].
      exists ps, p. auto.
  - assert (Hq : snd (monitor_cycle pct ex st (Fetched ps)) =
                 snd (match ps with [] => on_no_positions st | _ => on_no_valid st end)).
    { destruct ps; [reflexivity |]. simpl. simpl in Hp. rewrite Hp. reflexivity. }
    assert (Hn : forall tok sz,
               ~ In (CallClosePosition tok sz) (snd (monitor_cycle pct ex st (Fetched ps)))).
    { intros tok sz. rewrite Hq.
      destruct ps; [unfold on_no_positions | unfold on_no_valid];
        destruct (current_position_id st), (tracked_position st); simpl;
        intuition discriminate. }
    destruct (monitor_cycle pct ex st (Fetched ps)) as [st' effs]. cbn [snd] in Hn.
    split.
    + unfold count. destruct (filter is_close_call effs) as [| x l] eqn:Ef; simpl; [lia |].
      exfalso. assert (Hx : In x (filter is_close_call effs)) by (rewrite Ef; left; reflexivity).
      apply filter_In in Hx. destruct Hx as [Hx Hcx].
      destruct x; try discriminate. exact (Hn _ _ Hx).
    + intros tok sz H. destruct (Hn tok sz H).
Qed.

(** The snapshot kept in [tracked_position] has positive prices. *)
Definition tracked_positive (st : LoopState) : Prop :=
  forall t, tracked_position st = Some t -> 0 < tr_entry_price t /\ 0 < tr_last_price t.

Lemma monitor_cycle_closed_notifications pct ex st f t r :
  tracked_positive st ->
  tracked_positive (fst (monitor_cycle pct ex st f)) /\
  (In (NotifyPositionClosed t r) (snd (monitor_cycle pct ex st f)) ->
   tracked_position st = Some t).
Proof.
  intros Hinv.
  destruct f as [ps | e].
  2: { cbn [monitor_cycle]. split.
       - destruct e; exact Hinv.
       - unfold handle_exn. destruct e; cbn [snd]; rewrite ?in_app_iff; simpl;
           split_matches; simpl; intuition discriminate. }
  destruct (first_active ps) as [p |] eqn:Hp.
  - rewrite (monitor_cycle_active pct ex st ps p Hp).
    destruct (first_active_positive ps p Hp) as [Hc Ha].
    assert (Hnew : forall t', Some (mkTracked (title p) (outcome p) (avgPrice p) (curPrice p)
                                        (size p) (asset p)) = Some t' ->
                              0 < tr_entry_price t' /\ 0 < tr_last_price t').
    { intros t' H. injection H as <-. simpl. auto. }
    unfold on_active.
    destruct (calculate_stop_loss_trigger (avgPrice p) (curPrice p) pct) as [[|] drop].
    + destruct (ex (asset p) (size p)) as [res | e].
      * split; [exact Hnew |]. cbn [snd]. rewrite !in_app_iff.
        destruct (negb _), (reported_success res); simpl; intuition discriminate.
      * unfold handle_exn. destruct e; cbn [fst snd]; (split; [exact Hnew |]);
          rewrite ?in_app_iff; split_matches; simpl; intuition discriminate.
    + split; [exact Hnew |]. cbn [snd]. rewrite in_app_iff.
      destruct (negb _); simpl; intuition discriminate.
  - assert (Hq : monitor_cycle pct ex st (Fetched ps) =
                 match ps with [] => on_no_positions st | _ => on_no_valid st end).
    { destruct ps; [reflexivity |]. simpl. simpl in Hp. rewrite Hp. reflexivity. }
    rewrite Hq.
    destruct ps; [unfold on_no_positions | unfold on_no_valid];
      destruct (current_position_id st); cbn [fst snd];
      (split; [first [exact Hinv | intros t' H; discriminate] |]);
      unfold closed_notification; destruct (tracked_position st) as [t0 |];
      simpl; intuition congruence.
Qed.

Lemma run_closed_notifications pct ex fs st t r :
  tracked_positive st ->
  In (NotifyPositionClosed t r) (snd (run pct ex st fs)) ->
  0 < tr_entry_price t /\ 0 < tr_last_price t.
Proof.
  revert st. induction fs as [| f fs IH]; intros st Hinv; simpl; [intros [] |].
  pose proof (monitor_cycle_closed_notifications pct ex st f t r Hinv) as [H1 H2].
  destruct (monitor_cycle pct ex st f) as [st1 e1]. cbn [fst snd] in H1, H2.
  specialize (IH st1 H1). destruct (run pct ex st1 fs) as [st2 e2]. cbn [snd] in IH.
  simpl. rewrite in_app_iff. intros [H | H]; [| exact (IH H)].
  apply Hinv. exact (H2 H).
Qed.

(** X19: every position-closed notification the loop sends (from its
    start) carries a snapshot with positive entry and last prices, so
    [notify_position_closed] computes its P/L from the prices and never
    reports the result "LOST", even when the market resolved. *)
Theorem run_closed_never_lost pct ex fs t r :
  In (NotifyPositionClosed t r) (snd (run pct ex initial_state fs)) ->
  0 < tr_entry_price t /\ 0 < tr_last_price t /\
  fst (position_closed_result (tr_entry_price t) (tr_last_price t)) ==
    ((tr_last_price t - tr_entry_price t) / tr_entry_price t) * 100 /\
  snd (position_closed_result (tr_entry_price t) (tr_last_price t)) <> "LOST".
Proof.
  intros H.
  destruct (run_closed_notifications pct ex fs initial_state t r) as [He Hl];
    [intros t' Ht; discriminate | exact H |].
  assert (Ee : Qlt_bool 0 (tr_entry_price t) = true).
  { unfold Qlt_bool. destruct (Qle_bool (tr_entry_price t) 0) eqn:E; [| reflexivity].
    apply Qle_bool_iff in E. exfalso. exact (Qlt_not_le _ _ He E). }
  assert (El : Qle_bool (tr_last_price t) 0 = false).
  { destruct (Qle_bool (tr_last_price t) 0) eqn:E; [| reflexivity].
    apply Qle_bool_iff in E. exfalso. exact (Qlt_not_le _ _ Hl E). }
  unfold position_closed_result. rewrite Ee, El. cbn [fst snd].
  repeat split; try assumption; try reflexivity.
  destruct (Qle_bool 1 _); [discriminate |].
  destruct (Qle_bool 0 _); discriminate.
Qed.

Definition run_closed_never_lost_fetches : list Fetch :=
  [Fetched [position_A]; Fetched [position_invalid]].

Lemma run_closed_never_lost_witness :
  In (NotifyPositionClosed tracked_A (Some "Market Resolved"))
     (snd (run 20 no_trigger_executor initial_state run_closed_never_lost_fetches)) /\
  0 < tr_entry_price tracked_A /\ 0 < tr_last_price tracked_A /\
  fst (position_closed_result (tr_entry_price tracked_A) (tr_last_price tracked_A)) ==
    ((tr_last_price tracked_A - tr_entry_price tracked_A) / tr_entry_price tracked_A) * 100 /\
  snd (position_closed_result (tr_entry_price tracked_A) (tr_last_price tracked_A)) <> "LOST".
Proof.
  assert (H : In (NotifyPositionClosed tracked_A (Some "Market Resolved"))
                 (snd (run 20 no_trigger_executor initial_state run_closed_never_lost_fetches)))
    by (vm_compute; auto).
  split; [exact H |].
  exact (run_closed_never_lost 20 no_trigger_executor run_closed_never_lost_fetches
           tracked_A (Some "Market Resolved") H).
Defined.
